(** * confirm-env: checking environment variables through a chain of predicates

    A shallow embedding of the two implementations shipped in the repository
    and the properties that their specification states about them:

    - [index.js]: [confirm(name)], whose [fatal] throws an [Error];
    - the documented module [confirm-environment] (JSDoc header
      [@module confirm-environment]): [confirm(name, defaultValue)], whose
      [fatal] prints to the console and calls [process.exit(1)], and which
      adds [isPath].

    Conventions of the embedding.

    - JavaScript strings are [string]s; the model is exact on ASCII text
      (one [ascii] per UTF-16 code unit).
    - The types of the arguments are the ones of the JSDoc annotations:
      [name : string], [defaultValue : string | undefined] (an
      [option string]), [compare : *] (a [jsval]), and so on.
    - [process.env] is a finite map from names to strings, with names that
      differ in case being different names, as on POSIX systems; the file
      system is a finite map from absolute paths to the kind of node found
      there, and paths are POSIX paths.
    - A computation is a function from the state of the process to an
      outcome and a new state.  The outcome says whether the call returned,
      left through [process.exit], or threw. *)

From Stdlib Require Import ZArith Ascii String List Bool Lia DecimalString.
From Stdlib Require Import Permutation.
From stdpp Require Import base option strings gmap fin_maps.

Import ListNotations.
Local Open Scope Z_scope.
Local Open Scope string_scope.

(** ** Strings of the host language *)

Module JsString.

(** The double quote, which the messages of the program contain. *)
Definition dquote : string := String "034"%char EmptyString.

Definition is_lower (c : ascii) : bool :=
  (97 <=? nat_of_ascii c)%nat && (nat_of_ascii c <=? 122)%nat.

Definition upper_char (c : ascii) : ascii :=
  if is_lower c then ascii_of_nat (nat_of_ascii c - 32) else c.

(** [String.prototype.toUpperCase] *)
Fixpoint toUpperCase (s : string) : string :=
  match s with
  | EmptyString => EmptyString
  | String c s' => String (upper_char c) (toUpperCase s')
  end.

(** [String.prototype.includes] *)
Fixpoint includes (s sub : string) : bool :=
  String.prefix sub s ||
  match s with
  | EmptyString => false
  | String _ s' => includes s' sub
  end.

(** [Array.prototype.join] on strings *)
Fixpoint join (sep : string) (l : list string) : string :=
  match l with
  | [] => EmptyString
  | [x] => x
  | x :: l' => x +:+ sep +:+ join sep l'
  end.

(** Splitting at every occurrence of a character. *)
Fixpoint split_on (c : ascii) (s : string) : list string :=
  match s with
  | EmptyString => [EmptyString]
  | String d s' =>
      if Ascii.eqb d c then EmptyString :: split_on c s'
      else match split_on c s' with
           | [] => [String d EmptyString]
           | w :: ws => String d w :: ws
           end
  end.

End JsString.

(** ** Numbers of the host language

    A number is [NaN], an infinity, or a finite decimal [m * 10^e].  The
    program obtains its numbers from numeric literals and from strings of
    the environment, both written in decimal (or as hexadecimal, octal or
    binary integers); they are represented exactly, so the rounding of
    IEEE doubles is not part of the model (integers below [2^53], such as
    port numbers and lengths, are not rounded by the host either). *)

Module JsNumber.

Inductive number : Type :=
| NaN
| PosInf
| NegInf
| Dec (m e : Z).

Definition of_Z (z : Z) : number := Dec z 0.

(** Both mantissas at the smaller of the two exponents. *)
Definition align (m1 e1 m2 e2 : Z) : Z * Z :=
  let e := Z.min e1 e2 in
  (m1 * 10 ^ (e1 - e), m2 * 10 ^ (e2 - e)).

(** [x < y] on numbers; [None] when an operand is [NaN] (the comparison
    is then "undefined" and every relational operator answers false). *)
Definition lt (x y : number) : option bool :=
  match x, y with
  | NaN, _ | _, NaN => None
  | PosInf, _ => Some false
  | _, PosInf => Some true
  | _, NegInf => Some false
  | NegInf, _ => Some true
  | Dec m1 e1, Dec m2 e2 =>
      let '(a, b) := align m1 e1 m2 e2 in Some (a <? b)%Z
  end.

(** [x == y] on numbers ([Number::equal]). *)
Definition equal (x y : number) : bool :=
  match x, y with
  | NaN, _ | _, NaN => false
  | PosInf, PosInf | NegInf, NegInf => true
  | Dec m1 e1, Dec m2 e2 =>
      let '(a, b) := align m1 e1 m2 e2 in (a =? b)%Z
  | _, _ => false
  end.

(** *** From strings: [StringToNumber] *)

Definition is_white (c : ascii) : bool :=
  let n := nat_of_ascii c in
  ((9 <=? n) && (n <=? 13) || (n =? 32))%nat.

Fixpoint drop_white (l : list ascii) : list ascii :=
  match l with
  | c :: l' => if is_white c then drop_white l' else l
  | [] => []
  end.

Definition trim (l : list ascii) : list ascii :=
  rev (drop_white (rev (drop_white l))).

(** The value of a digit in a base up to sixteen. *)
Definition digit_value (base : Z) (c : ascii) : option Z :=
  let n := Z.of_nat (nat_of_ascii c) in
  let v := if ((48 <=? n) && (n <=? 57))%Z then Some (n - 48)
           else if ((97 <=? n) && (n <=? 102))%Z then Some (n - 87)
           else if ((65 <=? n) && (n <=? 70))%Z then Some (n - 55)
           else None in
  match v with
  | Some d => if (d <? base)%Z then Some d else None
  | None => None
  end.

Fixpoint digits_from (base acc : Z) (l : list ascii) : option Z :=
  match l with
  | [] => Some acc
  | c :: l' =>
      match digit_value base c with
      | Some d => digits_from base (acc * base + d) l'
      | None => None
      end
  end.

(** A possibly empty run of digits. *)
Definition digits (base : Z) (l : list ascii) : option Z :=
  digits_from base 0 l.

(** A run of at least one digit. *)
Definition digits1 (base : Z) (l : list ascii) : option Z :=
  match l with
  | [] => None
  | _ => digits base l
  end.

(** Cuts a list at the first character that satisfies [p]. *)
Fixpoint break (p : ascii -> bool) (l : list ascii)
  : list ascii * option (list ascii) :=
  match l with
  | [] => ([], None)
  | c :: l' =>
      if p c then ([], Some l')
      else let '(a, b) := break p l' in (c :: a, b)
  end.

Definition is_char (c d : ascii) : bool := Ascii.eqb c d.

(** An optional sign: the factor and what follows. *)
Definition sign (l : list ascii) : Z * list ascii :=
  match l with
  | "+"%char :: l' => (1, l')
  | "-"%char :: l' => (-1, l')
  | _ => (1, l)
  end.

(** [ExponentPart] without its letter: a signed, non-empty integer. *)
Definition exponent (l : list ascii) : option Z :=
  let '(s, ds) := sign l in
  match digits1 10 ds with
  | Some n => Some (s * n)
  | None => None
  end.

(** [StrUnsignedDecimalLiteral] other than [Infinity]: digits with an
    optional fraction and an optional exponent; a digit is required before
    or after the dot. *)
Definition unsigned_decimal (l : list ascii) : option (Z * Z) :=
  let '(mant, ex) :=
    break (fun c => is_char c "e" || is_char c "E") l in
  let '(ip, fp) := break (fun c => is_char c ".") mant in
  let frac := match fp with Some f => f | None => [] end in
  match ip, frac with
  | [], [] => None
  | _, _ =>
      match digits 10 (ip ++ frac), ex with
      | Some m, None => Some (m, - Z.of_nat (length frac))
      | Some m, Some el =>
          match exponent el with
          | Some x => Some (m, x - Z.of_nat (length frac))
          | None => None
          end
      | None, _ => None
      end
  end.

Definition Infinity : list ascii := list_ascii_of_string "Infinity".

Definition list_ascii_eqb (a b : list ascii) : bool :=
  String.eqb (string_of_list_ascii a) (string_of_list_ascii b).

(** [StrDecimalLiteral] *)
Definition decimal (l : list ascii) : number :=
  let '(s, u) := sign l in
  if list_ascii_eqb u Infinity then (if (s =? 1)%Z then PosInf else NegInf)
  else match unsigned_decimal u with
       | Some (m, e) => Dec (s * m) e
       | None => NaN
       end.

(** [NonDecimalIntegerLiteral] *)
Definition radix_integer (base : Z) (l : list ascii) : number :=
  match digits1 base l with
  | Some n => Dec n 0
  | None => NaN
  end.

(** [StringToNumber]: the empty string (after trimming) is zero. *)
Definition of_string (s : string) : number :=
  match trim (list_ascii_of_string s) with
  | [] => Dec 0 0
  | "0"%char :: "x"%char :: l | "0"%char :: "X"%char :: l => radix_integer 16 l
  | "0"%char :: "o"%char :: l | "0"%char :: "O"%char :: l => radix_integer 8 l
  | "0"%char :: "b"%char :: l | "0"%char :: "B"%char :: l => radix_integer 2 l
  | l => decimal l
  end.

End JsNumber.

(** ** Values of the host language and their conversions *)

Module JsValue.
Import JsString JsNumber.

(** The primitive values that the arguments of the chain range over. *)
Inductive jsval : Type :=
| JUndefined
| JNull
| JBool (b : bool)
| JNumber (n : number)
| JString (s : string).

Definition digits_of_pos (p : positive) : string :=
  NilZero.string_of_uint (Pos.to_uint p).

Fixpoint zeros (n : nat) : string :=
  match n with
  | O => EmptyString
  | S n' => String "0" (zeros n')
  end.

Fixpoint drop_zeros (l : list ascii) : list ascii :=
  match l with
  | c :: l' => if Ascii.eqb c "0" then drop_zeros l' else l
  | [] => []
  end.

(** The digits of [s] without the zeros at its end, and how many there
    were. *)
Definition strip_zeros (s : string) : string * nat :=
  let r := rev (list_ascii_of_string s) in
  let kept := drop_zeros r in
  (string_of_list_ascii (rev kept), (List.length r - List.length kept)%nat).

Definition string_of_Z (z : Z) : string :=
  match z with
  | Z0 => "0"
  | Zpos p => digits_of_pos p
  | Zneg p => "-" +:+ digits_of_pos p
  end.

(** The exponent of the scientific notation: [e+21], [e-7]. *)
Definition exponent_text (x : Z) : string :=
  "e" +:+ (if (0 <=? x)%Z then "+" else "-") +:+ string_of_Z (Z.abs x).

(** [Number::toString] (radix ten) of a positive decimal with digits [ds]
    (no zero at the end) and decimal point after [n] digits. *)
Definition positional (ds : string) (n : Z) : string :=
  let k := Z.of_nat (String.length ds) in
  if ((k <=? n) && (n <=? 21))%Z then
    ds +:+ zeros (Z.to_nat (n - k))
  else if ((0 <? n) && (n <=? 21))%Z then
    String.substring 0 (Z.to_nat n) ds +:+ "." +:+
    String.substring (Z.to_nat n) (Z.to_nat (k - n)) ds
  else if ((-6 <? n) && (n <=? 0))%Z then
    "0." +:+ zeros (Z.to_nat (- n)) +:+ ds
  else if (k =? 1)%Z then
    ds +:+ exponent_text (n - 1)
  else
    String.substring 0 1 ds +:+ "." +:+
    String.substring 1 (Z.to_nat (k - 1)) ds +:+ exponent_text (n - 1).

Definition NumberToString (x : number) : string :=
  match x with
  | NaN => "NaN"
  | PosInf => "Infinity"
  | NegInf => "-Infinity"
  | Dec Z0 _ => "0"
  | Dec (Zpos p) e =>
      let '(ds, z) := strip_zeros (digits_of_pos p) in
      positional ds (Z.of_nat (String.length ds) + Z.of_nat z + e)
  | Dec (Zneg p) e =>
      let '(ds, z) := strip_zeros (digits_of_pos p) in
      "-" +:+ positional ds (Z.of_nat (String.length ds) + Z.of_nat z + e)
  end.

(** [ToString], as applied by template literals and by [+]. *)
Definition ToString (v : jsval) : string :=
  match v with
  | JUndefined => "undefined"
  | JNull => "null"
  | JBool true => "true"
  | JBool false => "false"
  | JNumber n => NumberToString n
  | JString s => s
  end.

(** [ToNumber] *)
Definition ToNumber (v : jsval) : number :=
  match v with
  | JUndefined => NaN
  | JNull => Dec 0 0
  | JBool true => Dec 1 0
  | JBool false => Dec 0 0
  | JNumber n => n
  | JString s => JsNumber.of_string s
  end.

(** [value == compare] with a string on the left. *)
Definition loose_eq (value : string) (compare : jsval) : bool :=
  match compare with
  | JUndefined | JNull => false
  | JString s => String.eqb value s
  | JNumber _ | JBool _ =>
      JsNumber.equal (JsNumber.of_string value) (ToNumber compare)
  end.

(** [IsLessThan]: code units are compared when both operands are strings,
    numbers otherwise. *)
Definition less_than (x y : jsval) : option bool :=
  match x, y with
  | JString a, JString b =>
      Some (match String.compare a b with Lt => true | _ => false end)
  | _, _ => JsNumber.lt (ToNumber x) (ToNumber y)
  end.

(** [x < y] *)
Definition js_lt (x y : jsval) : bool :=
  match less_than x y with Some b => b | None => false end.

(** [x > y] *)
Definition js_gt (x y : jsval) : bool :=
  match less_than y x with Some b => b | None => false end.

(** [x <= y] *)
Definition js_le (x y : jsval) : bool :=
  match less_than y x with Some b => negb b | None => false end.

(** [x >= y] *)
Definition js_ge (x y : jsval) : bool :=
  match less_than x y with Some b => negb b | None => false end.

(** [Array.prototype.includes] looking for a string ([SameValueZero]). *)
Definition array_includes (values : list jsval) (value : string) : bool :=
  existsb (fun v => match v with
                    | JString s => String.eqb s value
                    | _ => false
                    end) values.

(** [Array.prototype.toString]: the elements joined by commas, where
    [undefined] and [null] leave nothing. *)
Definition array_element_text (v : jsval) : string :=
  match v with
  | JUndefined | JNull => EmptyString
  | _ => ToString v
  end.

Definition array_toString (values : list jsval) : string :=
  join "," (map array_element_text values).

(** *** [JSON.stringify] on primitive values *)

Definition hex_digit (n : nat) : ascii :=
  if (n <? 10)%nat then ascii_of_nat (48 + n) else ascii_of_nat (87 + n).

Definition json_char (c : ascii) : string :=
  let n := nat_of_ascii c in
  if (n =? 8)%nat then "\b"
  else if (n =? 9)%nat then "\t"
  else if (n =? 10)%nat then "\n"
  else if (n =? 12)%nat then "\f"
  else if (n =? 13)%nat then "\r"
  else if (n =? 34)%nat then "\" +:+ dquote
  else if (n =? 92)%nat then "\\"
  else if (n <? 32)%nat then
    "\u00" +:+ String (hex_digit (n / 16)) (String (hex_digit (n mod 16)) EmptyString)
  else String c EmptyString.

Fixpoint json_chars (s : string) : string :=
  match s with
  | EmptyString => EmptyString
  | String c s' => json_char c +:+ json_chars s'
  end.

(** [QuoteJSONString] *)
Definition json_quote (s : string) : string :=
  dquote +:+ json_chars s +:+ dquote.

(** [JSON.stringify]; [None] is the result [undefined]. *)
Definition JSON_stringify (v : jsval) : option string :=
  match v with
  | JUndefined => None
  | JNull => Some "null"
  | JBool _ => Some (ToString v)
  | JNumber (Dec _ _) => Some (ToString v)
  | JNumber _ => Some "null"
  | JString s => Some (json_quote s)
  end.

End JsValue.

(** ** Paths and the file system *)

Module JsPath.
Import JsString.

(** The first character is a slash. *)
Definition is_absolute (p : string) : bool :=
  match p with
  | String c _ => Ascii.eqb c "/"
  | EmptyString => false
  end.

(** One step of [normalizeString] when nothing may climb above the root:
    empty segments and [.] are dropped, [..] removes the segment before
    it. *)
Definition push_segment (stack : list string) (seg : string) : list string :=
  if String.eqb seg EmptyString || String.eqb seg "." then stack
  else if String.eqb seg ".." then removelast stack
  else stack ++ [seg].

Definition segments (p : string) : list string :=
  fold_left push_segment (split_on "/" p) [].

Definition of_segments (segs : list string) : string :=
  "/" +:+ join "/" segs.

(** [path.resolve(p)] of the POSIX implementation, in a process whose
    working directory is [cwd] (an absolute path). *)
Definition resolve (cwd p : string) : string :=
  of_segments (segments (if is_absolute p then p else cwd +:+ "/" +:+ p)).

(** The directory that holds [p], for a resolved path [p]. *)
Definition dirname (p : string) : string :=
  of_segments (removelast (segments p)).

End JsPath.

Module JsFs.

Inductive node : Type := File | Directory.

(** [fs.existsSync] *)
Definition exists_in (files : gmap string node) (p : string) : bool :=
  bool_decide (is_Some (files !! p)).

(** The error codes of [fs.mkdirSync(p)] without the [recursive] option. *)
Definition mkdir_error (files : gmap string node) (p : string)
  : option string :=
  match files !! p with
  | Some _ => Some "EEXIST"
  | None =>
      match files !! JsPath.dirname p with
      | Some Directory => None
      | Some File => Some "ENOTDIR"
      | None => Some "ENOENT"
      end
  end.

End JsFs.

(** ** The process and the computations that run in it *)

(** What a [throw] carries: an [Error] made by the program, the
    [TypeError] of a call to a method that is not there, the [SyntaxError]
    of [new RegExp], or the system error of a file system call. *)
Inductive exn : Type :=
| Error (message : string)
| TypeError (message : string)
| SyntaxError (pattern : string)
| SystemError (code path : string).

Record process : Type := {
  env : gmap string string;        (* process.env *)
  files : gmap string JsFs.node;   (* the file system *)
  cwd : string;                    (* process.cwd() *)
  console : list string            (* what console.info has printed *)
}.

Inductive outcome (A : Type) : Type :=
| Returned (a : A)
| Exited (code : Z)
| Thrown (e : exn).

Arguments Returned {A} a.
Arguments Exited {A} code.
Arguments Thrown {A} e.

Definition M (A : Type) : Type := process -> outcome A * process.

Definition ret {A} (a : A) : M A := fun p => (Returned a, p).

Definition bind {A B} (m : M A) (k : A -> M B) : M B :=
  fun p =>
    match m p with
    | (Returned a, p') => k a p'
    | (Exited code, p') => (Exited code, p')
    | (Thrown e, p') => (Thrown e, p')
    end.

Declare Scope js_scope.
Delimit Scope js_scope with js.
Notation "'let!' x ':=' m 'in' k" := (bind m (fun x => k))
  (at level 10, x name, m at level 100, k at level 200) : js_scope.
Notation "m ';;' k" := (bind m (fun _ => k))
  (at level 100, k at level 200, right associativity) : js_scope.
Local Open Scope js_scope.

Definition throw {A} (e : exn) : M A := fun p => (Thrown e, p).

(** [process.exit(code)] *)
Definition process_exit {A} (code : Z) : M A := fun p => (Exited code, p).

(** [console.info(line)]; without an argument it prints an empty line. *)
Definition console_info (line : string) : M unit :=
  fun p => (Returned tt,
            {| env := env p; files := files p; cwd := cwd p;
               console := console p ++ [line] |}).

(** [process.env[name]] *)
Definition env_get (name : string) : M (option string) :=
  fun p => (Returned (env p !! name), p).

(** [process.env[name] = value] *)
Definition env_set (name value : string) : M unit :=
  fun p => (Returned tt,
            {| env := <[name := value]> (env p); files := files p;
               cwd := cwd p; console := console p |}).

(** [delete process.env[name]] *)
Definition env_delete (name : string) : M unit :=
  fun p => (Returned tt,
            {| env := delete name (env p); files := files p;
               cwd := cwd p; console := console p |}).

(** [path.resolve(path)] *)
Definition path_resolve (path : string) : M string :=
  fun p => (Returned (JsPath.resolve (cwd p) path), p).

(** [fs.existsSync(path)] *)
Definition fs_existsSync (path : string) : M bool :=
  fun p => (Returned (JsFs.exists_in (files p) path), p).

(** [fs.mkdirSync(path)]: one directory, whose parent has to be there. *)
Definition fs_mkdirSync (path : string) : M unit :=
  fun p =>
    match JsFs.mkdir_error (files p) path with
    | Some code => (Thrown (SystemError code path), p)
    | None =>
        (Returned tt,
         {| env := env p; files := <[path := JsFs.Directory]> (files p);
            cwd := cwd p; console := console p |})
    end.

(** A string of the environment is truthy when it is there and not
    empty. *)
Definition truthy (v : option string) : bool :=
  match v with
  | Some s => negb (String.eqb s EmptyString)
  | None => false
  end.

(** ** The chain of methods

    [confirm] returns the object [methods], whose functions share the
    variables [name], [value], [_NOT_] and [valid] of the call that created
    it.  The record below is the state of that closure; each method returns
    [methods] itself, here the state after the call.  A call that does not
    return ends the run: the model does not follow a caller that catches an
    exception and goes on with the same chain. *)

Record methods : Type := {
  name : string;     (* the parameter of confirm, as it was passed *)
  value : string;
  _NOT_ : bool;
  valid : bool
}.

Definition set_value (v : string) (c : methods) : methods :=
  {| name := name c; value := v; _NOT_ := _NOT_ c; valid := valid c |}.

Definition set_NOT (b : bool) (c : methods) : methods :=
  {| name := name c; value := value c; _NOT_ := b; valid := valid c |}.

Definition set_valid (b : bool) (c : methods) : methods :=
  {| name := name c; value := value c; _NOT_ := _NOT_ c; valid := b |}.

(** The calls that can be made on the chain. *)
Inductive call : Type :=
| Not
| Is (compare : JsValue.jsval)
| IsDefined
| IsEQ (compare : JsValue.jsval)
| IsGT (compare : JsValue.jsval)
| IsGE (compare : JsValue.jsval)
| IsLT (compare : JsValue.jsval)
| IsLE (compare : JsValue.jsval)
| HasLength (min max : JsNumber.number)
| Contains (substring : string)
| Matches (pattern : string)
| IsIn (values : list JsValue.jsval)
| IsPath (force : option bool).

Module Chain.
Section Methods.
Import JsString JsValue.

(** The two files differ in [fatal]; the methods from [is] to [isIn] are
    the same text in both. *)
Variable fatal : forall A : Type, string -> M A.

(** [new RegExp(pattern).test(text)] of the host; [None] when the
    pattern is not a regular expression ([new RegExp] throws a
    [SyntaxError]). *)
Variable RegExp_test : string -> string -> option bool.

Definition quoted (s : string) : string := dquote +:+ s +:+ dquote.

(** [arrayToText] *)
Definition arrayToText (values : list jsval) : string :=
  let stringified (item : jsval) : string :=
    match JSON_stringify item with
    | Some s => s
    | None => "undefined"
    end in
  let formattedArray : list (option string) :=
    map (fun item => Some (" " +:+ stringified item)) values in
  let first : option string :=
    match values with
    | v :: _ => JSON_stringify v
    | [] => None
    end in
  let formattedArray :=
    match formattedArray with
    | _ :: rest => first :: rest
    | [] => [first]
    end in
  "[" +:+ join "," (map (fun o => match o with
                                  | Some s => s
                                  | None => EmptyString
                                  end) formattedArray) +:+ "]".

(** The statements that end every comparison, after [valid] has been
    assigned:
<<
    if (_NOT_) valid = !valid;
    if (!_NOT_ && !valid) { fatal(positive); }
    else if (_NOT_ && !valid) { fatal(negative); }
    _NOT_ = false;
    return methods;
>> *)
Definition settle (positive negative : string) (c : methods) : M methods :=
  let c := if _NOT_ c then set_valid (negb (valid c)) c else c in
  (if negb (_NOT_ c) && negb (valid c) then fatal unit positive
   else if _NOT_ c && negb (valid c) then fatal unit negative
   else ret tt) ;;
  let c := set_NOT false c in
  ret c.

(** The getter [not] *)
Definition not (c : methods) : M methods :=
  let c := set_NOT (negb (_NOT_ c)) c in
  ret c.

(** [is] (a reserved word here) *)
Definition is_ (compare : jsval) (c : methods) : M methods :=
  let c := set_valid (loose_eq (value c) compare) c in
  settle
    (quoted (name c) +:+ " is " +:+ value c +:+
     " and must be equal to " +:+ ToString compare)
    (quoted (name c) +:+ " is " +:+ value c +:+
     " and must not be equal to " +:+ ToString compare)
    c.

(** [value !== undefined]: the value of a chain is a string. *)
Definition isDefined (c : methods) : M methods :=
  let c := set_valid true c in
  settle
    (quoted (name c) +:+ " must be defined")
    (quoted (name c) +:+ " must not be defined")
    c.

Definition isEQ (compare : jsval) (c : methods) : M methods :=
  let c := set_valid (loose_eq (value c) compare) c in
  settle
    (quoted (name c) +:+ " is " +:+ value c +:+
     " and must be equal to " +:+ ToString compare)
    (quoted (name c) +:+ " is " +:+ value c +:+
     " and must not be equal to " +:+ ToString compare)
    c.

Definition isGT (compare : jsval) (c : methods) : M methods :=
  let c := set_valid (js_gt (JString (value c)) compare) c in
  settle
    (quoted (name c) +:+ " is " +:+ value c +:+
     " and must be greater than " +:+ ToString compare)
    (quoted (name c) +:+ " is " +:+ value c +:+
     " and must be less than or equal " +:+ ToString compare)
    c.

Definition isGE (compare : jsval) (c : methods) : M methods :=
  let c := set_valid (js_ge (JString (value c)) compare) c in
  settle
    (quoted (name c) +:+ " is " +:+ value c +:+
     " and must be greater than or equal to " +:+ ToString compare)
    (quoted (name c) +:+ " is " +:+ value c +:+
     " and must be less than " +:+ ToString compare)
    c.

Definition isLT (compare : jsval) (c : methods) : M methods :=
  let c := set_valid (js_lt (JString (value c)) compare) c in
  settle
    (quoted (name c) +:+ " is " +:+ value c +:+
     " and must be less than " +:+ ToString compare)
    (quoted (name c) +:+ " is " +:+ value c +:+
     " and must be greater than or equal " +:+ ToString compare)
    c.

Definition isLE (compare : jsval) (c : methods) : M methods :=
  let c := set_valid (js_le (JString (value c)) compare) c in
  settle
    (quoted (name c) +:+ " is " +:+ value c +:+
     " and must be less than or equal to " +:+ ToString compare)
    (quoted (name c) +:+ " is " +:+ value c +:+
     " and must be greater than " +:+ ToString compare)
    c.

(** [value.length] *)
Definition length_of (s : string) : JsNumber.number :=
  JsNumber.of_Z (Z.of_nat (String.length s)).

Definition hasLength (min max : JsNumber.number) (c : methods) : M methods :=
  let len := length_of (value c) in
  let c := set_valid (js_ge (JNumber len) (JNumber min) &&
                      js_le (JNumber len) (JNumber max)) c in
  settle
    (quoted (name c) +:+ " is " +:+ NumberToString len +:+
     " long and must be between " +:+ NumberToString min +:+ " and " +:+
     NumberToString max +:+ " long")
    (quoted (name c) +:+ " is " +:+ NumberToString len +:+
     " long and must not be between " +:+ NumberToString min +:+ " and " +:+
     NumberToString max +:+ " long")
    c.

Definition contains (substring : string) (c : methods) : M methods :=
  let c := set_valid (includes (value c) substring) c in
  settle
    (quoted (name c) +:+ " is " +:+ dquote +:+ value c +:+ " " +:+ dquote +:+
     "and must contain " +:+ quoted substring)
    (quoted (name c) +:+ " is " +:+ quoted (value c) +:+
     " and must not contain " +:+ dquote +:+ substring)
    c.

Definition matches (pattern : string) (c : methods) : M methods :=
  match RegExp_test pattern (value c) with
  | None => throw (SyntaxError pattern)
  | Some b =>
      let c := set_valid b c in
      settle
        (quoted (name c) +:+ " is " +:+ dquote +:+ value c +:+ " " +:+
         dquote +:+ "and does not match the regular expression " +:+
         quoted pattern)
        (quoted (name c) +:+ " is " +:+ quoted (value c) +:+
         " and must not matched the regular expression " +:+ dquote +:+
         pattern)
        c
  end.

Definition isIn (values : list jsval) (c : methods) : M methods :=
  let c := set_valid (array_includes values (value c)) c in
  settle
    (quoted (name c) +:+ " is " +:+ dquote +:+ value c +:+ " " +:+ dquote +:+
     " and must be in the array " +:+ arrayToText values)
    (quoted (name c) +:+ " is " +:+ quoted (value c) +:+
     " and must not be in the array " +:+ array_toString values)
    c.

(** [isPath(force = true)], which only the module with [defaultValue]
    has. *)
Definition isPath (force : option bool) (c : methods) : M methods :=
  let force := match force with Some b => b | None => true end in
  (* expand the path to full value *)
  let! v := path_resolve (value c) in
  let c := set_value v c in
  (* now update path in environment variable *)
  env_set (name c) (value c) ;;
  (* if path does not exist and force is true then ensure the path is
     created *)
  let! found := fs_existsSync (value c) in
  (if negb found then
     if force then fs_mkdirSync (value c)
     else fatal unit (quoted (name c) +:+ " is " +:+ quoted (value c) +:+
                      " but it does not exist!")
   else ret tt) ;;
  let c := set_NOT false c in
  ret c.

(** One call on the chain. *)
Definition invoke (m : call) (c : methods) : M methods :=
  match m with
  | Not => not c
  | Is compare => is_ compare c
  | IsDefined => isDefined c
  | IsEQ compare => isEQ compare c
  | IsGT compare => isGT compare c
  | IsGE compare => isGE compare c
  | IsLT compare => isLT compare c
  | IsLE compare => isLE compare c
  | HasLength min max => hasLength min max c
  | Contains substring => contains substring c
  | Matches pattern => matches pattern c
  | IsIn values => isIn values c
  | IsPath force => isPath force c
  end.

(** A sequence of calls, as in [confirm(...).a(x).not.b(y)]. *)
Fixpoint invoke_all (ms : list call) (c : methods) : M methods :=
  match ms with
  | [] => ret c
  | m :: ms' => let! c' := invoke m c in invoke_all ms' c'
  end.

End Methods.
End Chain.

(** ** The lookup that opens [getValue]

    Both files begin [getValue] with the same statements once [name] is in
    upper case: the variable is read and, when it has no value and
    [NODE_ENV] has one, the variable with the suffix takes its place. *)

Definition lookup_with_fallback (name : string) : M (option string) :=
  (* get value from process environment variable array *)
  let! value := env_get name in
  (* if value is undefined and NODE_ENV is defined *)
  let! NODE_ENV := env_get "NODE_ENV" in
  match NODE_ENV with
  | Some mode =>
      if negb (truthy value) && truthy (Some mode) then
        (* create new name using name and NODE_ENV value *)
        let newName := name +:+ "_" +:+ JsString.toUpperCase mode in
        (* get value from process environment variable array *)
        let! value := env_get newName in
        (* if variable with newName is defined *)
        match value with
        | Some v =>
            if truthy (Some v) then
              (* assign newName value to name value *)
              env_set name v ;;
              (* delete the newName variable *)
              env_delete newName ;;
              ret value
            else ret value
        | None => ret value
        end
      else ret value
  | None => ret value
  end.

(** ** The module [confirm-environment] ([confirm(name, defaultValue)]) *)

Module ConfirmEnvironment.
Import JsString.

(** Terminate the application with a fatal error message. *)
Definition fatal (A : Type) (message : string) : M A :=
  console_info message ;;
  console_info EmptyString ;;
  console_info "Terminating application!" ;;
  process_exit 1.

Definition getValue (name : string) (defaultValue : option string)
  : M string :=
  (* ensure the name parameter is passed *)
  (if negb (truthy (Some name)) || String.eqb name EmptyString
   then fatal unit ("The " +:+ dquote +:+ "name" +:+ dquote +:+
                    " parameter is required!")
   else ret tt) ;;
  (* convert name to uppercase *)
  let name := toUpperCase name in
  (* get value from process environment variable array, falling back on
     the name with the suffix *)
  let! value := lookup_with_fallback name in
  (* if environment variable is still undefined *)
  let unresolved :=
    match defaultValue with
    | Some d =>
        (* if default value provided *)
        if truthy (Some d) then env_set name d ;; ret d
        else fatal string ("The " +:+ dquote +:+ name +:+
                           " environment variable is undefined!")
    | None => fatal string ("The " +:+ dquote +:+ name +:+
                            " environment variable is undefined!")
    end in
  match value with
  | Some v =>
      if negb (truthy (Some v)) || String.eqb v EmptyString then unresolved
      else ret v
  | None => unresolved
  end.

Definition confirm (name : string) (defaultValue : option string)
  : M methods :=
  (* get the value *)
  let! value := getValue name defaultValue in
  ret {| name := name; value := value; _NOT_ := false; valid := false |}.

(** The methods of the object that [confirm] returns. *)
Definition not := Chain.not.
Definition is_ := Chain.is_ fatal.
Definition isDefined := Chain.isDefined fatal.
Definition isEQ := Chain.isEQ fatal.
Definition isGT := Chain.isGT fatal.
Definition isGE := Chain.isGE fatal.
Definition isLT := Chain.isLT fatal.
Definition isLE := Chain.isLE fatal.
Definition hasLength := Chain.hasLength fatal.
Definition contains := Chain.contains fatal.
Definition matches := Chain.matches fatal.
Definition isIn := Chain.isIn fatal.
Definition isPath := Chain.isPath fatal.

Section Host.
Variable RegExp_test : string -> string -> option bool.

Definition invoke : call -> methods -> M methods :=
  Chain.invoke fatal RegExp_test.

Definition invoke_all : list call -> methods -> M methods :=
  Chain.invoke_all fatal RegExp_test.

(** [confirm(name, defaultValue)] followed by calls on its result. *)
Definition run (name : string) (defaultValue : option string)
  (calls : list call) : M methods :=
  let! c := confirm name defaultValue in
  invoke_all calls c.
End Host.

End ConfirmEnvironment.

(** ** [index.js] ([confirm(name)]) *)

Module IndexJs.
Import JsString.

(** define function to throw error *)
Definition fatal (A : Type) (message : string) : M A :=
  throw (Error message).

Definition getValue (name : string) : M string :=
  (if negb (truthy (Some name)) || String.eqb name EmptyString
   then fatal unit ("The " +:+ dquote +:+ "name" +:+ dquote +:+
                    " parameter is required!")
   else ret tt) ;;
  let name := toUpperCase name in
  let! value := lookup_with_fallback name in
  (* if environment variable is still undefined *)
  match value with
  | Some v =>
      if negb (truthy (Some v))
      then fatal string ("The " +:+ dquote +:+ name +:+ dquote +:+
                         " environment variable is undefined!")
      else ret v
  | None => fatal string ("The " +:+ dquote +:+ name +:+ dquote +:+
                          " environment variable is undefined!")
  end.

Definition confirm (name : string) : M methods :=
  let! value := getValue name in
  ret {| name := name; value := value; _NOT_ := false; valid := false |}.

(** The methods of the object that [confirm] returns. *)
Definition not := Chain.not.
Definition is_ := Chain.is_ fatal.
Definition isDefined := Chain.isDefined fatal.
Definition isEQ := Chain.isEQ fatal.
Definition isGT := Chain.isGT fatal.
Definition isGE := Chain.isGE fatal.
Definition isLT := Chain.isLT fatal.
Definition isLE := Chain.isLE fatal.
Definition hasLength := Chain.hasLength fatal.
Definition contains := Chain.contains fatal.
Definition matches := Chain.matches fatal.
Definition isIn := Chain.isIn fatal.

Section Host.
Variable RegExp_test : string -> string -> option bool.

(** The object of this file has no [isPath]. *)
Definition invoke (m : call) (c : methods) : M methods :=
  match m with
  | IsPath _ => throw (TypeError "confirm(...).isPath is not a function")
  | _ => Chain.invoke fatal RegExp_test m c
  end.

Fixpoint invoke_all (ms : list call) (c : methods) : M methods :=
  match ms with
  | [] => ret c
  | m :: ms' => let! c' := invoke m c in invoke_all ms' c'
  end.

Definition run (name : string) (calls : list call) : M methods :=
  let! c := confirm name in
  invoke_all calls c.
End Host.

End IndexJs.

(** ** A regular-expression engine for running the model

    The theorems below hold for every engine.  To run a chain on a concrete
    input one is needed; this one knows the patterns made of letters,
    digits, spaces, [_], [-], [:] and [/], which match themselves, and
    answers [None] on every other pattern. *)

Definition plain_char (c : ascii) : bool :=
  let n := nat_of_ascii c in
  ((48 <=? n) && (n <=? 57) || (65 <=? n) && (n <=? 90) ||
   (97 <=? n) && (n <=? 122) || (n =? 32) || (n =? 95) || (n =? 45) ||
   (n =? 58) || (n =? 47))%nat.

Definition literal_RegExp_test (pattern text : string) : option bool :=
  if forallb plain_char (list_ascii_of_string pattern)
  then Some (JsString.includes text pattern)
  else None.

(** ** Vocabulary of the statements about processes *)

(** The process after [lines] have been printed. *)
Definition printed (lines : list string) (p : process) : process :=
  {| env := env p; files := files p; cwd := cwd p;
     console := (console p ++ lines)%list |}.

(** The process with another environment table. *)
Definition with_env (e : gmap string string) (p : process) : process :=
  {| env := e; files := files p; cwd := cwd p; console := console p |}.

(** The process with another file system. *)
Definition with_files (f : gmap string JsFs.node) (p : process) : process :=
  {| env := env p; files := f; cwd := cwd p; console := console p |}.

(** What [fatal] of [confirm-environment] prints. *)
Definition fatal_lines (message : string) : list string :=
  [message; EmptyString; "Terminating application!"].

(** ** Vocabulary of the statements about [confirm-environment] *)

Section Statements.
Import JsString JsValue ConfirmEnvironment.

(** *** Resolution *)

(** The message of the configuration error for the variable [name]
    (already in upper case). *)
Definition undefined_message (name : string) : string :=
  "The " +:+ dquote +:+ name +:+ " environment variable is undefined!".

(** The name that the suffix fallback looks up. *)
Definition suffixed (name mode : string) : string :=
  name +:+ "_" +:+ toUpperCase mode.

(** What [lookup_with_fallback] computes, read off the table: the value
    it ends with and the table it leaves. *)
Definition after_suffix_fallback (name : string) (e : gmap string string)
  : option string * gmap string string :=
  let value := e !! name in
  if truthy value then (value, e)
  else match e !! "NODE_ENV" with
       | Some mode =>
           if truthy (Some mode) then
             match e !! suffixed name mode with
             | Some v =>
                 if truthy (Some v)
                 then (Some v,
                       delete (suffixed name mode) (<[name := v]> e))
                 else (Some v, e)
             | None => (None, e)
             end
           else (value, e)
       | None => (value, e)
       end.

(** The chain that [confirm(name)] returns for the value [v]. *)
Definition new_chain (name v : string) : methods :=
  {| name := name; value := v; _NOT_ := false; valid := false |}.

(** The value of a variable when the empty string counts as no value. *)
Definition nonempty (o : option string) : option string :=
  match o with
  | Some s => if String.eqb s EmptyString then None else Some s
  | None => None
  end.

(** Two tables that differ only in that a variable bound to the empty
    string in one may be unset in the other. *)
Definition same_modulo_empty (e e' : gmap string string) : Prop :=
  forall k : string, nonempty (e !! k) = nonempty (e' !! k).

(** The fallback as the specification words it: whenever the variable is
    unset or empty, [NODE_ENV] is set and the suffixed entry is set,
    [confirm] resolves to the value of that entry and renames it. *)
Definition suffix_fallback_as_stated (N : string) (d : option string)
  (p : process) : Prop :=
  forall mode v : string,
    env p !! toUpperCase N = None \/
      env p !! toUpperCase N = Some EmptyString ->
    env p !! "NODE_ENV" = Some mode ->
    env p !! suffixed (toUpperCase N) mode = Some v ->
    exists e' : gmap string string,
      confirm N d p = (Returned (new_chain N v), with_env e' p) /\
      e' !! toUpperCase N = Some v /\
      e' !! suffixed (toUpperCase N) mode = None.

(** The default as the specification words it: when the lookup and the
    suffix fallback end without a value, a supplied default is returned
    and written under the uppercased name, and without a default the
    configuration error is raised. *)
Definition default_fallback_as_stated (N : string) (d : option string)
  (p : process) : Prop :=
  forall (value : option string) (p1 : process),
    lookup_with_fallback (toUpperCase N) p = (Returned value, p1) ->
    value = None \/ value = Some EmptyString ->
    match d with
    | Some dv =>
        getValue N d p =
          (Returned dv, with_env (<[toUpperCase N := dv]> (env p1)) p1)
    | None =>
        getValue N d p =
          (Exited 1,
           printed (fatal_lines (undefined_message (toUpperCase N))) p1)
    end.

(** *** The chain *)

(** The chain after a comparison that went through with the final
    [result]. *)
Definition settled (result : bool) (c : methods) : methods :=
  {| name := name c; value := value c; _NOT_ := false; valid := result |}.

Section Engine.
Variable RegExp_test : string -> string -> option bool.

(** The boolean that a comparison computes for [value]; the getter
    [not] and [isPath] compute none, and [matches] needs a pattern that
    the engine accepts. *)
Definition computed (m : call) (value : string) : option bool :=
  match m with
  | Not | IsPath _ => None
  | Is compare | IsEQ compare => Some (loose_eq value compare)
  | IsDefined => Some true
  | IsGT compare => Some (js_gt (JString value) compare)
  | IsGE compare => Some (js_ge (JString value) compare)
  | IsLT compare => Some (js_lt (JString value) compare)
  | IsLE compare => Some (js_le (JString value) compare)
  | HasLength min max =>
      Some (js_ge (JNumber (Chain.length_of value)) (JNumber min) &&
            js_le (JNumber (Chain.length_of value)) (JNumber max))
  | Contains substring => Some (includes value substring)
  | Matches pattern => RegExp_test pattern value
  | IsIn values => Some (array_includes values value)
  end.

End Engine.

(** The parameter [force = true] of [isPath]. *)
Definition forced (force : option bool) : bool :=
  match force with Some b => b | None => true end.

(** The chain after [isPath] has resolved its value to [path]. *)
Definition resolved (path : string) (c : methods) : methods :=
  {| name := name c; value := path; _NOT_ := false; valid := valid c |}.

(** The message of [isPath] for a path that is not there. *)
Definition missing_message (name path : string) : string :=
  Chain.quoted name +:+ " is " +:+ Chain.quoted path +:+
  " but it does not exist!".

(** The creation as the specification words it: when the resolved path
    does not exist and [force] is true, [isPath] creates the directory at
    that path and returns the chain. *)
Definition creation_as_stated (force : option bool) (c : methods)
  (p : process) : Prop :=
  let path := JsPath.resolve (cwd p) (value c) in
  JsFs.exists_in (files p) path = false ->
  forced force = true ->
  isPath force c p =
    (Returned (resolved path c),
     with_files (<[path := JsFs.Directory]> (files p))
       (with_env (<[name c := path]> (env p)) p)).

(** *** Failures *)

(** The failure policy as the specification words it: a call either
    returns, or it has printed a message and left the process with
    status one; it never throws. *)
Definition fails_by_exit {A} (p : process) (r : outcome A * process)
  : Prop :=
  match fst r with
  | Returned _ => True
  | Exited code =>
      code = 1 /\
      exists message : string,
        console (snd r) = (console p ++ fatal_lines message)%list
  | Thrown _ => False
  end.

(** What can come out of [confirm-environment]: a call returns and has
    printed nothing, or it has printed the three lines of [fatal] and
    left with status one, or an exception of the host passes through (the
    [SyntaxError] of [new RegExp], the system error of [mkdirSync]).  No
    [Error] of the program's own is thrown. *)
Definition exits_or_host_error {A} (p : process) (r : outcome A * process)
  : Prop :=
  match fst r with
  | Returned _ => console (snd r) = console p
  | Exited code =>
      code = 1 /\
      exists message : string,
        console (snd r) = (console p ++ fatal_lines message)%list
  | Thrown (Error _) | Thrown (TypeError _) => False
  | Thrown (SyntaxError _) | Thrown (SystemError _ _) => True
  end.

(** *** The processes and chains of the examples *)

(** Nothing is set. *)
Definition nothing_set : process :=
  {| env := ∅; files := ∅; cwd := "/"; console := [] |}.

(** [NODE_ENV=test], [NAME] unset, [NAME_TEST=from-test]. *)
Definition test_mode : process :=
  {| env := <["NODE_ENV" := "test"]> (<["NAME_TEST" := "from-test"]> ∅);
     files := ∅; cwd := "/"; console := [] |}.

(** [NODE_ENV=test], [NAME] unset, [NAME_TEST] set to the empty string. *)
Definition empty_suffixed_entry : process :=
  {| env := <["NODE_ENV" := "test"]> (<["NAME_TEST" := EmptyString]> ∅);
     files := ∅; cwd := "/"; console := [] |}.

(** [NAME] is bound to the empty string, [NODE_ENV=test],
    [NAME_TEST=from-test]. *)
Definition empty_name : process :=
  {| env := <["NAME" := EmptyString]> (env test_mode);
     files := ∅; cwd := "/"; console := [] |}.

(** [SERVER_PORT=4000] *)
Definition port_4000 : process :=
  {| env := <["SERVER_PORT" := "4000"]> ∅;
     files := ∅; cwd := "/"; console := [] |}.

(** [LOG_PATH=./logs] in [/srv/app], where [logs] does not exist yet. *)
Definition app_without_logs : process :=
  {| env := <["LOG_PATH" := "./logs"]> ∅;
     files := <["/" := JsFs.Directory]>
                (<["/srv" := JsFs.Directory]>
                   (<["/srv/app" := JsFs.Directory]> ∅));
     cwd := "/srv/app"; console := [] |}.

(** The chain of [confirm("LOG_PATH")] in that process. *)
Definition log_path_chain : methods :=
  {| name := "LOG_PATH"; value := "./logs"; _NOT_ := false; valid := false |}.

(** [LOG_PATH=./logs/today] in [/srv/app], where [logs] does not exist. *)
Definition app_without_logs_today : process :=
  {| env := <["LOG_PATH" := "./logs/today"]> ∅;
     files := files app_without_logs;
     cwd := "/srv/app"; console := [] |}.

(** The chain of [confirm("LOG_PATH")] in that process. *)
Definition log_path_today_chain : methods :=
  {| name := "LOG_PATH"; value := "./logs/today"; _NOT_ := false;
     valid := false |}.

(** [LOG_PATH=/var/log], which exists. *)
Definition with_var_log : process :=
  {| env := <["LOG_PATH" := "/var/log"]> ∅;
     files := <["/" := JsFs.Directory]>
                (<["/var" := JsFs.Directory]>
                   (<["/var/log" := JsFs.Directory]> ∅));
     cwd := "/"; console := [] |}.

End Statements.

(** ** The helper functions of both files *)

Module Utilities.
Import JsString JsValue.

(** [String.prototype.trim] *)
Definition trim (s : string) : string :=
  string_of_list_ascii (JsNumber.trim (list_ascii_of_string s)).

(** [textToArray]: [text.trim().split(",")] *)
Definition textToArray (text : string) : list string :=
  split_on "," (trim text).

(** [typeof value === "number"] *)
Definition typeof_number (value : jsval) : bool :=
  match value with
  | JNumber _ => true
  | _ => false
  end.

(** The global [isNaN], which converts its argument to a number. *)
Definition isNaN (value : jsval) : bool :=
  match ToNumber value with
  | JsNumber.NaN => true
  | _ => false
  end.

(** [Number.isInteger]: a finite number without a fractional part. *)
Definition Number_isInteger (value : jsval) : bool :=
  match value with
  | JNumber (JsNumber.Dec m e) =>
      (0 <=? e)%Z || (m mod 10 ^ (- e) =? 0)%Z
  | _ => false
  end.

(** [validNumber] *)
Definition validNumber (value : jsval) : bool :=
  typeof_number value && negb (isNaN value).

(** [validInteger] *)
Definition validInteger (value : jsval) : bool :=
  typeof_number value && Number_isInteger value.

(** [validFloat] *)
Definition validFloat (value : jsval) : bool :=
  typeof_number value && negb (Number_isInteger value).

(** [validDefined]: [typeof value !== "undefined"] *)
Definition validDefined (value : jsval) : bool :=
  match value with
  | JUndefined => false
  | _ => true
  end.

(** [validUndefined]: [typeof value === "undefined"] *)
Definition validUndefined (value : jsval) : bool :=
  match value with
  | JUndefined => true
  | _ => false
  end.

End Utilities.

(** ** Vocabulary of further statements *)

Section MoreStatements.
Import JsString JsValue.

(** The text of an item of [arrayToText]: [JSON.stringify(item)] put into a
    string. *)
Definition item_text (item : jsval) : string :=
  match JSON_stringify item with
  | Some s => s
  | None => "undefined"
  end.

(** A chain written as a list of comparisons, each with or without [not]
    before it. *)
Definition calls_of (items : list (bool * call)) : list call :=
  flat_map (fun item : bool * call =>
              if fst item then [Not; snd item] else [snd item]) items.

(** A string without a slash. *)
Definition no_slash (s : string) : Prop :=
  forall a b : string, s <> a +:+ "/" +:+ b.

(** A segment of a resolved path: not empty, not [.] or [..], and without a
    slash. *)
Definition path_segment (s : string) : Prop :=
  s <> EmptyString /\ s <> "." /\ s <> ".." /\ no_slash s.

(** The call returns the chain and leaves the process as it was. *)
Definition passes (RegExp_test : string -> string -> option bool)
  (m : call) (c : methods) (p : process) : Prop :=
  exists c' : methods,
    ConfirmEnvironment.invoke RegExp_test m c p = (Returned c', p).

(** The same for a sequence of calls. *)
Definition all_pass (RegExp_test : string -> string -> option bool)
  (ms : list call) (c : methods) (p : process) : Prop :=
  exists c' : methods,
    ConfirmEnvironment.invoke_all RegExp_test ms c p = (Returned c', p).

End MoreStatements.

(** * Properties *)

Section Properties.
Import JsString JsValue ConfirmEnvironment.


(** ** Strings *)

Section StringFacts.

Lemma upper_char_idempotent (c : ascii) :
  upper_char (upper_char c) = upper_char c.
Proof.
  destruct c as [[] [] [] [] [] [] [] []]; reflexivity.
Qed.

Lemma toUpperCase_idempotent (s : string) :
  toUpperCase (toUpperCase s) = toUpperCase s.
Proof.
  induction s as [|c s IH]; simpl; [reflexivity|].
  now rewrite upper_char_idempotent, IH.
Qed.

Lemma toUpperCase_empty (s : string) :
  toUpperCase s = EmptyString <-> s = EmptyString.
Proof.
  destruct s; simpl; split; intros H; try reflexivity; discriminate H.
Qed.

Lemma length_app (a b : string) :
  String.length (a +:+ b) = (String.length a + String.length b)%nat.
Proof.
  induction a as [|c a IH]; simpl; [reflexivity|].
  now rewrite IH.
Qed.

(** A name with a suffix is another name. *)
Lemma suffixed_ne (a b : string) : a +:+ "_" +:+ b <> a.
Proof.
  intros H. apply (f_equal String.length) in H.
  rewrite !length_app in H. simpl in H. lia.
Qed.

Lemma truthy_Some (s : string) :
  truthy (Some s) = true <-> s <> EmptyString.
Proof.
  unfold truthy. destruct (String.eqb_spec s EmptyString); simpl; split;
    intros; congruence.
Qed.

Lemma truthy_false (v : option string) :
  truthy v = false <-> v = None \/ v = Some EmptyString.
Proof.
  destruct v as [s|]; simpl.
  - destruct (String.eqb_spec s EmptyString) as [E|E]; simpl.
    + split; [intros _; right; congruence | reflexivity].
    + split; [discriminate | intros [H|H]; congruence].
  - split; auto.
Qed.

Lemma name_given (name : string) :
  name <> EmptyString ->
  negb (truthy (Some name)) || String.eqb name EmptyString = false.
Proof.
  intros H. apply truthy_Some in H. rewrite H. simpl.
  apply truthy_Some in H. now apply String.eqb_neq.
Qed.

End StringFacts.

(** ** Running computations *)

Ltac js_step :=
  cbv beta delta [bind ret throw process_exit console_info env_get env_set
                  env_delete path_resolve fs_existsSync fs_mkdirSync] iota;
  cbn [env files cwd console fst snd].

(** [fatal] of [confirm-environment] prints three lines and leaves with
    status one. *)
Lemma fatal_exits (A : Type) (message : string) (p : process) :
  ConfirmEnvironment.fatal A message p =
    (Exited 1, printed (fatal_lines message) p).
Proof.
  unfold ConfirmEnvironment.fatal, printed, fatal_lines. js_step.
  now rewrite <- !app_assoc.
Qed.

(** [fatal] of [index.js] throws and prints nothing. *)
Lemma fatal_throws (A : Type) (message : string) (p : process) :
  IndexJs.fatal A message p = (Thrown (Error message), p).
Proof. reflexivity. Qed.

(** Runs a computation whose tests are on values of known shape. *)
Ltac js_reduce :=
  repeat (js_step;
          cbn [truthy negb andb orb String.eqb Ascii.eqb default from_option]).

Lemma with_env_same (p : process) : with_env (env p) p = p.
Proof. now destruct p. Qed.

(** ** Value resolution in [confirm-environment] *)

Lemma lookup_with_fallback_eq (name : string) (p : process) :
  lookup_with_fallback name p =
    (Returned (fst (after_suffix_fallback name (env p))),
     with_env (snd (after_suffix_fallback name (env p))) p).
Proof.
  unfold lookup_with_fallback, after_suffix_fallback, suffixed.
  destruct p as [e f w out]. js_step.
  destruct (e !! name) as [[|c v]|] eqn:HU;
    destruct (e !! "NODE_ENV") as [[|c' mode]|] eqn:Hmode;
    js_reduce; try reflexivity;
    match goal with
    | |- context [e !! ?k] => destruct (e !! k) as [[|? ?]|] eqn:Hs
    end; js_reduce; reflexivity.
Qed.

(** When the lookup ends without a value, it has left the table as it
    was. *)
Lemma after_suffix_fallback_falsy (name : string) (e : gmap string string) :
  truthy (fst (after_suffix_fallback name e)) = false ->
  snd (after_suffix_fallback name e) = e.
Proof.
  unfold after_suffix_fallback.
  destruct (truthy (e !! name)) eqn:H1; [reflexivity|].
  destruct (e !! "NODE_ENV") as [mode|]; [|reflexivity].
  destruct (truthy (Some mode)); [|reflexivity].
  destruct (e !! suffixed name mode) as [v|]; [|reflexivity].
  destruct (truthy (Some v)) eqn:Hv; [|reflexivity].
  cbn [fst]. congruence.
Qed.

(** [getValue] in terms of the table after the suffix fallback. *)
Lemma getValue_unfold (name : string) (d : option string) (p : process) :
  name <> EmptyString ->
  getValue name d p =
    let U := toUpperCase name in
    let '(value, e) := after_suffix_fallback U (env p) in
    if truthy value then (Returned (default EmptyString value), with_env e p)
    else if truthy d
         then (Returned (default EmptyString d),
               with_env (<[U := default EmptyString d]> e) p)
         else (Exited 1,
               printed (fatal_lines (undefined_message U)) (with_env e p)).
Proof.
  intros Hname. unfold getValue.
  rewrite (name_given _ Hname).
  cbv beta delta [bind ret] iota. rewrite lookup_with_fallback_eq.
  cbv zeta.
  destruct (after_suffix_fallback (toUpperCase name) (env p)) as [value e].
  cbn [fst snd].
  destruct value as [[|c v]|]; destruct d as [[|? ?]|];
    js_reduce; rewrite ?fatal_exits; reflexivity.
Qed.

(** Without a name the configuration error is immediate. *)
Lemma getValue_no_name (d : option string) (p : process) :
  getValue EmptyString d p =
    (Exited 1,
     printed (fatal_lines ("The " +:+ dquote +:+ "name" +:+ dquote +:+
                           " parameter is required!")) p).
Proof.
  unfold getValue. js_reduce. now rewrite fatal_exits.
Qed.

(** *** The suffix fallback *)

(** Counterexample to C2 as stated: the suffixed entry [NAME_TEST] is set
    (to the empty string), yet [confirm("NAME", "fallback")] resolves to
    the default, and [NAME_TEST] stays in the table. *)
Lemma suffix_fallback_empty_entry :
  confirm "NAME" (Some "fallback") empty_suffixed_entry =
    (Returned (new_chain "NAME" "fallback"),
     with_env (<["NAME" := "fallback"]> (env empty_suffixed_entry))
       empty_suffixed_entry) /\
  <["NAME" := "fallback"]> (env empty_suffixed_entry) !! "NAME_TEST" =
    Some EmptyString /\
  ~ suffix_fallback_as_stated "NAME" (Some "fallback") empty_suffixed_entry.
Proof.
  assert (Hrun : confirm "NAME" (Some "fallback") empty_suffixed_entry =
    (Returned (new_chain "NAME" "fallback"),
     with_env (<["NAME" := "fallback"]> (env empty_suffixed_entry))
       empty_suffixed_entry)).
  { unfold confirm. cbv beta delta [bind ret] iota.
    rewrite getValue_unfold by discriminate. reflexivity. }
  split; [exact Hrun|]. split; [reflexivity|].
  intros H.
  destruct (H "test" EmptyString) as (e' & Hc & _);
    [left; reflexivity | reflexivity | reflexivity |].
  rewrite Hrun in Hc. discriminate Hc.
Qed.

(** C2, amended: for every variable name [N] (not empty), if the
    uppercased [N] is unset or empty in the table, [NODE_ENV] is set and
    not empty, and the entry [N_<uppercased NODE_ENV>] is set and not
    empty, then [confirm(N)] resolves to the value of that entry, and
    afterwards the table binds the uppercased [N] to this value and no
    longer contains the suffixed entry. *)
Theorem suffix_fallback_renames
  (N mode v : string) (d : option string) (p : process) :
  N <> EmptyString ->
  env p !! toUpperCase N = None \/
    env p !! toUpperCase N = Some EmptyString ->
  env p !! "NODE_ENV" = Some mode ->
  mode <> EmptyString ->
  env p !! suffixed (toUpperCase N) mode = Some v ->
  v <> EmptyString ->
  let e' := delete (suffixed (toUpperCase N) mode)
              (<[toUpperCase N := v]> (env p)) in
  confirm N d p = (Returned (new_chain N v), with_env e' p) /\
  e' !! toUpperCase N = Some v /\
  e' !! suffixed (toUpperCase N) mode = None.
Proof.
  intros HN HU Hmode Hm Hs Hv e'. split; [|split].
  - unfold confirm. cbv beta delta [bind ret] iota.
    rewrite getValue_unfold by exact HN.
    cbv zeta. unfold after_suffix_fallback.
    apply truthy_false in HU. rewrite HU, Hmode.
    apply truthy_Some in Hm. rewrite Hm, Hs.
    apply truthy_Some in Hv. rewrite !Hv. reflexivity.
  - subst e'. rewrite lookup_delete_ne by apply suffixed_ne.
    apply lookup_insert_eq.
  - subst e'. apply lookup_delete_eq.
Qed.

Lemma suffix_fallback_renames_witness :
  confirm "name" None test_mode =
    (Returned (new_chain "name" "from-test"),
     with_env (delete "NAME_TEST" (<["NAME" := "from-test"]> (env test_mode)))
       test_mode) /\
  delete "NAME_TEST" (<["NAME" := "from-test"]> (env test_mode)) !! "NAME" =
    Some "from-test" /\
  delete "NAME_TEST" (<["NAME" := "from-test"]> (env test_mode)) !! "NAME_TEST" =
    None.
Proof.
  apply (suffix_fallback_renames "name" "test" "from-test" None test_mode).
  - discriminate.
  - left. reflexivity.
  - reflexivity.
  - discriminate.
  - reflexivity.
  - discriminate.
Defined.

(** *** The default *)

(** Counterexample to C3 as stated: the empty string is supplied as the
    default, and [confirm] of [NAME] ends in the configuration error instead of
    returning it. *)
Lemma default_fallback_empty_default :
  getValue "NAME" (Some EmptyString) nothing_set =
    (Exited 1,
     printed (fatal_lines (undefined_message "NAME")) nothing_set) /\
  ~ default_fallback_as_stated "NAME" (Some EmptyString) nothing_set.
Proof.
  assert (Hrun : getValue "NAME" (Some EmptyString) nothing_set =
    (Exited 1,
     printed (fatal_lines (undefined_message "NAME")) nothing_set)).
  { rewrite getValue_unfold by discriminate. reflexivity. }
  split; [exact Hrun|]. intros H.
  specialize (H None nothing_set eq_refl (or_introl eq_refl)).
  cbv beta iota in H. rewrite Hrun in H. discriminate H.
Qed.

(** C3, amended: for every variable name [N] (not empty) whose value is
    still absent or empty after the suffix fallback, if a defaultValue
    other than the empty string is supplied, resolution returns it and
    writes it into the table under the uppercased [N]; if no defaultValue
    is supplied, resolution fails with the configuration error that names
    the variable.  (The lookup has then left the table as it was.) *)
Theorem default_fallback
  (N : string) (d value : option string) (p p1 : process) :
  N <> EmptyString ->
  lookup_with_fallback (toUpperCase N) p = (Returned value, p1) ->
  value = None \/ value = Some EmptyString ->
  p1 = p /\
  (forall dv : string, d = Some dv -> dv <> EmptyString ->
     getValue N d p =
       (Returned dv, with_env (<[toUpperCase N := dv]> (env p)) p) /\
     confirm N d p =
       (Returned (new_chain N dv),
        with_env (<[toUpperCase N := dv]> (env p)) p) /\
     <[toUpperCase N := dv]> (env p) !! toUpperCase N = Some dv) /\
  (d = None ->
     getValue N d p =
       (Exited 1,
        printed (fatal_lines ("The " +:+ dquote +:+ toUpperCase N +:+
                              " environment variable is undefined!")) p) /\
     confirm N d p =
       (Exited 1,
        printed (fatal_lines ("The " +:+ dquote +:+ toUpperCase N +:+
                              " environment variable is undefined!")) p)).
Proof.
  intros HN Hlook Hvalue.
  rewrite lookup_with_fallback_eq in Hlook.
  injection Hlook as Hv Hp1.
  apply truthy_false in Hvalue. rewrite <- Hv in Hvalue.
  pose proof (after_suffix_fallback_falsy _ _ Hvalue) as He.
  rewrite He, with_env_same in Hp1.
  assert (Hget : forall d',
    getValue N d' p =
      if truthy d'
      then (Returned (default EmptyString d'),
            with_env (<[toUpperCase N := default EmptyString d']> (env p)) p)
      else (Exited 1,
            printed (fatal_lines (undefined_message (toUpperCase N))) p)).
  { intros d'. rewrite getValue_unfold by exact HN. cbv zeta.
    destruct (after_suffix_fallback (toUpperCase N) (env p)) as [v e].
    cbn [fst snd] in *. rewrite Hvalue. subst e.
    now rewrite with_env_same. }
  split; [now symmetry|]. split.
  - intros dv -> Hdv. apply truthy_Some in Hdv.
    assert (Hg := Hget (Some dv)). rewrite Hdv in Hg. cbn in Hg.
    split; [exact Hg|]. split; [|apply lookup_insert_eq].
    unfold confirm. cbv beta delta [bind ret] iota. now rewrite Hg.
  - intros ->. assert (Hg := Hget None). cbn [truthy] in Hg.
    split; [exact Hg|].
    unfold confirm. cbv beta delta [bind ret] iota. now rewrite Hg.
Qed.

Lemma default_fallback_witness :
  getValue "name" (Some "fallback") nothing_set =
    (Returned "fallback",
     with_env (<["NAME" := "fallback"]> (env nothing_set)) nothing_set) /\
  getValue "name" None nothing_set =
    (Exited 1,
     printed (fatal_lines ("The " +:+ dquote +:+ "NAME" +:+
                           " environment variable is undefined!"))
       nothing_set).
Proof.
  split.
  - apply (default_fallback "name" (Some "fallback") None
             nothing_set nothing_set);
      [discriminate | reflexivity | left; reflexivity | reflexivity
      | discriminate].
  - apply (default_fallback "name" None None nothing_set nothing_set);
      [discriminate | reflexivity | left; reflexivity | reflexivity].
Defined.

(** *** The empty string *)

Lemma nonempty_eq (o o' : option string) :
  nonempty o = nonempty o' ->
  truthy o = truthy o' /\ (truthy o = true -> o = o').
Proof.
  destruct o as [[|c s]|], o' as [[|c' s']|]; cbn; intros H;
    split; congruence.
Qed.

Lemma nonempty_falsy (o : option string) :
  truthy o = false -> nonempty o = None.
Proof. destruct o as [[|c s]|]; cbn; congruence. Qed.

Lemma same_modulo_empty_insert (e e' : gmap string string) (k v : string) :
  same_modulo_empty e e' ->
  same_modulo_empty (<[k := v]> e) (<[k := v]> e').
Proof.
  intros H j. destruct (decide (k = j)) as [->|Hne].
  - now rewrite !lookup_insert_eq.
  - rewrite !lookup_insert_ne by exact Hne. apply H.
Qed.

Lemma same_modulo_empty_delete (e e' : gmap string string) (k : string) :
  same_modulo_empty e e' ->
  same_modulo_empty (delete k e) (delete k e').
Proof.
  intros H j. destruct (decide (k = j)) as [->|Hne].
  - now rewrite !lookup_delete_eq.
  - rewrite !lookup_delete_ne by exact Hne. apply H.
Qed.

Lemma after_suffix_fallback_same (U : string) (e e' : gmap string string) :
  same_modulo_empty e e' ->
  nonempty (fst (after_suffix_fallback U e)) =
    nonempty (fst (after_suffix_fallback U e')) /\
  same_modulo_empty (snd (after_suffix_fallback U e))
    (snd (after_suffix_fallback U e')).
Proof.
  intros H. unfold after_suffix_fallback.
  destruct (nonempty_eq _ _ (H U)) as [HtU HeU].
  destruct (truthy (e !! U)) eqn:H1; rewrite <- HtU.
  { cbn [fst snd]. split; [apply H | exact H]. }
  assert (Hfalsy : nonempty (e !! U) = nonempty (e' !! U) /\
                   same_modulo_empty e e') by (split; [apply H | exact H]).
  destruct (nonempty_eq _ _ (H "NODE_ENV")) as [HtM HeM].
  destruct (e !! "NODE_ENV") as [mode|] eqn:Hm;
    destruct (e' !! "NODE_ENV") as [mode'|] eqn:Hm'.
  - rewrite <- HtM. destruct (truthy (Some mode)) eqn:Hmode;
      [|exact Hfalsy].
    specialize (HeM eq_refl). injection HeM as <-.
    destruct (nonempty_eq _ _ (H (suffixed U mode))) as [HtS HeS].
    destruct (e !! suffixed U mode) as [v|] eqn:Hs;
      destruct (e' !! suffixed U mode) as [v'|] eqn:Hs'.
    + rewrite <- HtS. destruct (truthy (Some v)) eqn:Hv.
      * specialize (HeS eq_refl). injection HeS as <-. cbn [fst snd].
        split; [reflexivity|].
        now apply same_modulo_empty_delete, same_modulo_empty_insert.
      * cbn [fst snd]. split; [|exact H].
        rewrite (nonempty_falsy _ Hv). symmetry. apply nonempty_falsy.
        now rewrite <- HtS.
    + assert (Hv : truthy (Some v) = false) by exact HtS.
      rewrite Hv. cbn [fst snd].
      split; [|exact H]. now apply nonempty_falsy.
    + assert (Hv : truthy (Some v') = false) by (symmetry; exact HtS).
      rewrite Hv. cbn [fst snd].
      split; [|exact H]. symmetry. now apply nonempty_falsy.
    + cbn [fst snd]. split; [reflexivity | exact H].
  - assert (Hmode : truthy (Some mode) = false) by exact HtM.
    rewrite Hmode. exact Hfalsy.
  - assert (Hmode : truthy (Some mode') = false) by (symmetry; exact HtM).
    rewrite Hmode. exact Hfalsy.
  - exact Hfalsy.
Qed.

(** C9: resolution treats the empty string like an unset variable at
    every step.  Replacing empty strings by unset variables anywhere in
    the table, or an empty default by no default, changes nothing in what
    [getValue] does: the same value is returned or the same configuration
    error is printed, and the tables that result again differ only in
    variables that are empty in one and unset in the other.  In
    particular the empty default is treated as no default, and it produces
    the configuration error whenever the lookup and the suffix fallback
    end without a value. *)
Theorem empty_string_is_unset
  (N : string) (d d' : option string) (p p' : process) :
  same_modulo_empty (env p) (env p') ->
  console p = console p' ->
  nonempty d = nonempty d' ->
  (fst (getValue N d p) = fst (getValue N d' p') /\
   console (snd (getValue N d p)) = console (snd (getValue N d' p')) /\
   same_modulo_empty (env (snd (getValue N d p)))
     (env (snd (getValue N d' p')))) /\
  getValue N (Some EmptyString) p = getValue N None p /\
  (forall (value : option string) (p1 : process),
   N <> EmptyString ->
   lookup_with_fallback (toUpperCase N) p = (Returned value, p1) ->
   value = None \/ value = Some EmptyString ->
   getValue N (Some EmptyString) p =
     (Exited 1,
      printed (fatal_lines ("The " +:+ dquote +:+ toUpperCase N +:+
                            " environment variable is undefined!")) p)).
Proof.
  intros He Hc Hd.
  destruct (String.eqb_spec N EmptyString) as [->|HN].
  { rewrite !getValue_no_name. cbn [fst snd printed env console].
    rewrite Hc. repeat split; try exact He. intros ? ? H; now destruct H. }
  split; [|split].
  - rewrite !getValue_unfold by exact HN. cbv zeta.
    destruct (after_suffix_fallback_same (toUpperCase N) _ _ He) as [Hv Hs].
    destruct (after_suffix_fallback (toUpperCase N) (env p)) as [v e].
    destruct (after_suffix_fallback (toUpperCase N) (env p')) as [v' e'].
    cbn [fst snd] in Hv, Hs.
    destruct (nonempty_eq _ _ Hv) as [Htv Hev].
    destruct (nonempty_eq _ _ Hd) as [Htd Hed].
    rewrite <- Htv, <- Htd.
    destruct (truthy v).
    + rewrite (Hev eq_refl). cbn [fst snd with_env env console].
      repeat split; [exact Hc | exact Hs].
    + destruct (truthy d).
      * rewrite <- (Hed eq_refl). cbn [fst snd with_env env console].
        repeat split; [exact Hc|].
        now apply same_modulo_empty_insert.
      * cbn [fst snd with_env printed env console]. rewrite Hc.
        repeat split. exact Hs.
  - rewrite !getValue_unfold by exact HN. reflexivity.
  - intros value p1 _ Hlook Hvalue.
    rewrite lookup_with_fallback_eq in Hlook. injection Hlook as Hv _.
    apply truthy_false in Hvalue. rewrite <- Hv in Hvalue.
    clear Hv. rename Hvalue into Hv.
    rewrite getValue_unfold by exact HN. cbv zeta.
    pose proof (after_suffix_fallback_falsy _ _ Hv) as Hsame.
    destruct (after_suffix_fallback (toUpperCase N) (env p)) as [v e].
    cbn [fst snd] in Hv, Hsame. rewrite Hv. subst e. cbn [truthy].
    now rewrite with_env_same.
Qed.

Lemma empty_string_is_unset_witness :
  fst (getValue "NAME" (Some EmptyString) empty_name) =
    fst (getValue "NAME" None test_mode) /\
  fst (getValue "NAME" None test_mode) = Returned "from-test".
Proof.
  split; [|reflexivity].
  refine (proj1 (proj1 (empty_string_is_unset "NAME" (Some EmptyString)
                          None empty_name test_mode _ _ _))).
  - intros k. unfold empty_name. cbn [env].
    destruct (decide ("NAME" = k)) as [<-|Hne].
    + reflexivity.
    + now rewrite lookup_insert_ne by exact Hne.
  - reflexivity.
  - reflexivity.
Defined.

(** ** The chain of [confirm-environment] *)

Lemma string_app_assoc (a b c : string) : (a +:+ b) +:+ c = a +:+ (b +:+ c).
Proof.
  induction a as [|x a IH]; [reflexivity|].
  change (String x ((a +:+ b) +:+ c) = String x (a +:+ b +:+ c)).
  now f_equal.
Qed.

Lemma string_app_cancel (a x y : string) : a +:+ x = a +:+ y -> x = y.
Proof.
  induction a as [|c a IH]; intros H; [exact H|].
  change (String c (a +:+ x) = String c (a +:+ y)) in H.
  injection H as H. exact (IH H).
Qed.

(** Tells two messages apart that begin alike. *)
Ltac differ :=
  let H := fresh in
  intros H; unfold Chain.quoted in H; rewrite ?string_app_assoc in H;
  repeat apply string_app_cancel in H;
  cbv [String.append dquote] in H; discriminate H.

(** The end of every comparison: with [valid] computed, the final result
    is [valid] inverted under a pending negation; the call returns the
    chain when it is true and is fatal, with the message of the case,
    when it is false. *)
Lemma settle_eq (positive negative : string) (c : methods) (p : process) :
  Chain.settle fatal positive negative c p =
    if xorb (valid c) (_NOT_ c)
    then (Returned (settled (xorb (valid c) (_NOT_ c)) c), p)
    else (Exited 1,
          printed (fatal_lines (if _NOT_ c then negative else positive)) p).
Proof.
  unfold Chain.settle, settled.
  destruct c as [n v [] []]; cbn [_NOT_ valid set_valid set_NOT negb andb
    orb xorb name value]; js_step; rewrite ?fatal_exits; reflexivity.
Qed.

Section Host.
Variable RegExp_test : string -> string -> option bool.

(** The contract of the comparisons [is], [isDefined], [isEQ], [isGT],
    [isGE], [isLT], [isLE], [hasLength], [contains], [matches] and
    [isIn]: the boolean is computed and inverted when a negation is
    pending; the call is fatal exactly when the final result is false,
    with one message for the plain case and another for the negated
    one; otherwise it resets the flag and returns the chain. *)
Lemma comparison_contract (m : call) (c : methods) (p : process) (b : bool) :
  computed RegExp_test m (value c) = Some b ->
  exists positive negative : string,
    positive <> negative /\
    invoke RegExp_test m c p =
      if xorb b (_NOT_ c)
      then (Returned (settled (xorb b (_NOT_ c)) c), p)
      else (Exited 1,
            printed (fatal_lines (if _NOT_ c then negative else positive))
              p).
Proof.
  intros Hb. unfold invoke.
  destruct m; cbn [computed] in Hb; try discriminate Hb;
    try (injection Hb as <-);
    cbn [Chain.invoke];
    unfold Chain.is_, Chain.isDefined, Chain.isEQ, Chain.isGT, Chain.isGE,
      Chain.isLT, Chain.isLE, Chain.hasLength, Chain.contains,
      Chain.matches, Chain.isIn;
    rewrite ?Hb;
    (eexists; eexists; split; [|rewrite settle_eq; reflexivity]);
    cbn [name value set_valid]; differ.
Qed.

End Host.

(** *** [isPath] *)

(** [isPath], statement by statement. *)
Lemma isPath_unfold (force : option bool) (c : methods) (p : process) :
  isPath force c p =
    let path := JsPath.resolve (cwd p) (value c) in
    let p1 := with_env (<[name c := path]> (env p)) p in
    if JsFs.exists_in (files p) path then (Returned (resolved path c), p1)
    else if forced force then
      match JsFs.mkdir_error (files p) path with
      | None =>
          (Returned (resolved path c),
           with_files (<[path := JsFs.Directory]> (files p)) p1)
      | Some code => (Thrown (SystemError code path), p1)
      end
    else (Exited 1,
          printed (fatal_lines (missing_message (name c) path)) p1).
Proof.
  unfold isPath, Chain.isPath, forced, missing_message. js_step.
  cbn [name value set_value set_NOT].
  destruct (JsFs.exists_in (files p) (JsPath.resolve (cwd p) (value c)));
    cbn [negb]; js_step; [reflexivity|].
  destruct force as [[]|]; js_step; rewrite ?fatal_exits; try reflexivity;
    destruct (JsFs.mkdir_error (files p) (JsPath.resolve (cwd p) (value c)));
    reflexivity.
Qed.

Lemma resolve_absolute (cwd path : string) :
  JsPath.is_absolute (JsPath.resolve cwd path) = true.
Proof. reflexivity. Qed.

Lemma mkdir_error_parent (fs : gmap string JsFs.node) (path : string) :
  fs !! path = None ->
  (fs !! JsPath.dirname path = Some JsFs.Directory ->
     JsFs.mkdir_error fs path = None) /\
  (fs !! JsPath.dirname path <> Some JsFs.Directory ->
     exists code, JsFs.mkdir_error fs path = Some code).
Proof.
  intros Hp. unfold JsFs.mkdir_error. rewrite Hp.
  destruct (fs !! JsPath.dirname path) as [[]|]; split; intros H;
    try reflexivity; try discriminate H; try (now destruct H); eauto.
Qed.

Lemma exists_in_false (fs : gmap string JsFs.node) (path : string) :
  JsFs.exists_in fs path = false <-> fs !! path = None.
Proof.
  unfold JsFs.exists_in. rewrite bool_decide_eq_false.
  rewrite <- eq_None_not_Some. reflexivity.
Qed.

(** The name of the chain is the one that was passed to [confirm]. *)
Lemma confirm_name (N : string) (d : option string) (p q : process)
  (c : methods) :
  confirm N d p = (Returned c, q) -> name c = N.
Proof.
  unfold confirm. cbv beta delta [bind ret] iota.
  destruct (getValue N d p) as [[v| |] p']; intros H; try discriminate H.
  injection H as <- _. reflexivity.
Qed.

(** Counterexample to C6 as stated: with [LOG_PATH=./logs/today] in
    [/srv/app], where neither [logs] nor [logs/today] exists,
    [isPath(true)] does not create a directory at the resolved path:
    [mkdirSync] throws [ENOENT], and the file system is as before. *)
Lemma isPath_missing_parent :
  JsFs.exists_in (files app_without_logs_today) "/srv/app/logs/today" = false /\
  isPath (Some true) log_path_today_chain app_without_logs_today =
    (Thrown (SystemError "ENOENT" "/srv/app/logs/today"),
     with_env (<["LOG_PATH" := "/srv/app/logs/today"]>
                 (env app_without_logs_today))
       app_without_logs_today) /\
  ~ creation_as_stated (Some true) log_path_today_chain app_without_logs_today.
Proof.
  assert (H : isPath (Some true) log_path_today_chain app_without_logs_today =
    (Thrown (SystemError "ENOENT" "/srv/app/logs/today"),
     with_env (<["LOG_PATH" := "/srv/app/logs/today"]>
                 (env app_without_logs_today))
       app_without_logs_today)).
  { rewrite isPath_unfold. reflexivity. }
  split; [reflexivity|]. split; [exact H|].
  intros Hstated. specialize (Hstated eq_refl eq_refl).
  rewrite H in Hstated. discriminate Hstated.
Qed.

(** C6, amended: [isPath(force)] resolves the current value to an absolute
    path and writes that path into the table under the name that the chain
    holds, which is the name of the variable when [confirm] was given it in
    upper case.  If the path exists, the call returns the chain and the
    file system is as before.  If it does not exist and [force] is true (or
    omitted), the one call [mkdirSync(path)] is made: it creates the
    directory at the path when the directory above it is there, and
    otherwise it throws and creates nothing; in neither case is any other
    path created, so no intermediate directory ever appears.  If the path
    does not exist and [force] is false, the call is fatal. *)
Theorem isPath_resolves_and_creates
  (force : option bool) (c : methods) (p : process) :
  let path := JsPath.resolve (cwd p) (value c) in
  let r := isPath force c p in
  JsPath.is_absolute path = true /\
  env (snd r) = <[name c := path]> (env p) /\
  env (snd r) !! name c = Some path /\
  (forall (N : string) (d : option string) (p0 : process),
     confirm N d p0 = (Returned c, p) -> toUpperCase N = N ->
     env (snd r) !! toUpperCase N = Some path) /\
  (JsFs.exists_in (files p) path = true ->
     r = (Returned (resolved path c),
          with_env (<[name c := path]> (env p)) p)) /\
  (JsFs.exists_in (files p) path = false -> forced force = true ->
     (forall other : string,
        other <> path -> files (snd r) !! other = files p !! other) /\
     (files p !! JsPath.dirname path = Some JsFs.Directory ->
        r = (Returned (resolved path c),
             with_files (<[path := JsFs.Directory]> (files p))
               (with_env (<[name c := path]> (env p)) p)) /\
        files (snd r) !! path = Some JsFs.Directory) /\
     (files p !! JsPath.dirname path <> Some JsFs.Directory ->
        files (snd r) = files p /\
        exists code, fst r = Thrown (SystemError code path))) /\
  (JsFs.exists_in (files p) path = false -> forced force = false ->
     r = (Exited 1,
          printed (fatal_lines (missing_message (name c) path))
            (with_env (<[name c := path]> (env p)) p))).
Proof.
  intros path r. subst r. rewrite isPath_unfold. cbv zeta. fold path.
  split; [apply resolve_absolute|].
  assert (Henv : env (snd
    (if JsFs.exists_in (files p) path
     then (Returned (resolved path c),
           with_env (<[name c := path]> (env p)) p)
     else if forced force
          then match JsFs.mkdir_error (files p) path with
               | Some code =>
                   (Thrown (SystemError code path),
                    with_env (<[name c := path]> (env p)) p)
               | None =>
                   (Returned (resolved path c),
                    with_files (<[path := JsFs.Directory]> (files p))
                      (with_env (<[name c := path]> (env p)) p))
               end
          else (Exited 1,
                printed (fatal_lines (missing_message (name c) path))
                  (with_env (<[name c := path]> (env p)) p)))) =
    <[name c := path]> (env p)).
  { destruct (JsFs.exists_in (files p) path); [reflexivity|].
    destruct (forced force); [|reflexivity].
    destruct (JsFs.mkdir_error (files p) path); reflexivity. }
  split; [exact Henv|]. split; [rewrite Henv; apply lookup_insert_eq|].
  split.
  { intros N d p0 Hc HN. rewrite HN, <- (confirm_name _ _ _ _ _ Hc), Henv.
    apply lookup_insert_eq. }
  split; [|split].
  - intros ->. reflexivity.
  - intros Hmissing Hforce. rewrite Hmissing, Hforce.
    apply exists_in_false in Hmissing.
    destruct (mkdir_error_parent _ _ Hmissing) as [Hdir Hnodir].
    split; [|split].
    + intros other Hother.
      destruct (JsFs.mkdir_error (files p) path); cbn [snd files with_files
        with_env]; [reflexivity|].
      now rewrite lookup_insert_ne by congruence.
    + intros Hparent. rewrite (Hdir Hparent). split; [reflexivity|].
      cbn [snd files with_files]. apply lookup_insert_eq.
    + intros Hparent. destruct (Hnodir Hparent) as [code ->].
      split; [reflexivity|]. now exists code.
  - intros -> ->. reflexivity.
Qed.

Lemma isPath_resolves_and_creates_witness :
  isPath (Some true) log_path_chain app_without_logs =
    (Returned (resolved "/srv/app/logs" log_path_chain),
     with_files (<["/srv/app/logs" := JsFs.Directory]>
                   (files app_without_logs))
       (with_env (<["LOG_PATH" := "/srv/app/logs"]> (env app_without_logs))
          app_without_logs)).
Proof.
  destruct (isPath_resolves_and_creates (Some true) log_path_chain
              app_without_logs) as (_ & _ & _ & _ & _ & Hcreate & _).
  destruct (Hcreate eq_refl eq_refl) as (_ & Hdir & _).
  exact (proj1 (Hdir eq_refl)).
Defined.

(** C10: [isPath] writes the resolved path into the table before it looks
    for the path, so when it is fatal ([force] is false and the resolved
    path does not exist) the table has already been changed: it binds the
    name of the chain to the absolute path at the moment the process
    exits. *)
Theorem isPath_failure_keeps_the_write (c : methods) (p : process) :
  JsFs.exists_in (files p) (JsPath.resolve (cwd p) (value c)) = false ->
  let path := JsPath.resolve (cwd p) (value c) in
  let r := isPath (Some false) c p in
  fst r = Exited 1 /\
  console (snd r) =
    (console p ++ fatal_lines (missing_message (name c) path))%list /\
  env (snd r) = <[name c := path]> (env p) /\
  env (snd r) !! name c = Some path /\
  JsPath.is_absolute path = true.
Proof.
  intros Hmissing path r. subst path r. rewrite isPath_unfold. cbv zeta.
  rewrite Hmissing. cbn [forced fst snd printed with_env env
    console].
  repeat split. apply lookup_insert_eq.
Qed.

Lemma isPath_failure_keeps_the_write_witness :
  fst (isPath (Some false) log_path_chain app_without_logs) = Exited 1 /\
  env (snd (isPath (Some false) log_path_chain app_without_logs))
    !! "LOG_PATH" = Some "/srv/app/logs".
Proof.
  destruct (isPath_failure_keeps_the_write log_path_chain app_without_logs
              eq_refl) as (Hexit & _ & _ & Hwritten & _).
  split; [exact Hexit | exact Hwritten].
Defined.

(** ** The negation flag *)

(** The flag is false in the chain that [confirm] returns. *)
Lemma confirm_flag (N : string) (d : option string) (p q : process)
  (c : methods) :
  confirm N d p = (Returned c, q) -> _NOT_ c = false.
Proof.
  unfold confirm. cbv beta delta [bind ret] iota.
  destruct (getValue N d p) as [[v| |] p']; intros H;
    try discriminate H.
  injection H as <- _. reflexivity.
Qed.

(** Every access of [not] toggles the flag and changes nothing else. *)
Lemma not_toggles (c : methods) (p : process) :
  not c p = (Returned (set_NOT (negb (_NOT_ c)) c), p).
Proof. reflexivity. Qed.

Section Host.
Variable RegExp_test : string -> string -> option bool.

(** After [n] accesses in a row the flag has been toggled [n] times. *)
Lemma nots_parity (n : nat) (c : methods) (p : process) :
  invoke_all RegExp_test (repeat Not n) c p =
    (Returned (set_NOT (xorb (_NOT_ c) (Nat.odd n)) c), p).
Proof.
  revert c. induction n as [|n IH]; intros c.
  - destruct c as [nm v [] b]; reflexivity.
  - change (repeat Not (S n)) with (Not :: repeat Not n).
    unfold invoke_all in *. cbn [Chain.invoke_all Chain.invoke].
    unfold bind at 1. cbv beta zeta delta [Chain.not ret] iota.
    rewrite IH.
    cbn [_NOT_ set_NOT].
    rewrite Nat.odd_succ, <- Nat.negb_odd.
    destruct c as [nm v [] b]; destruct (Nat.odd n); reflexivity.
Qed.

(** Every method other than [not] that returns has reset the flag. *)
Lemma flag_reset (m : call) (c c' : methods) (p q : process) :
  m <> Not ->
  invoke RegExp_test m c p = (Returned c', q) ->
  _NOT_ c' = false.
Proof.
  intros Hm. destruct (computed RegExp_test m (value c)) as [b|] eqn:Hb.
  - destruct (comparison_contract RegExp_test m c p b Hb)
      as (pos & neg & _ & ->).
    destruct (xorb b (_NOT_ c)); intros H; [|discriminate H].
    injection H as <- _. reflexivity.
  - destruct m; try discriminate Hb; try (now destruct Hm).
    + unfold invoke. cbn [Chain.invoke]. unfold Chain.matches.
      cbn [computed] in Hb. rewrite Hb. discriminate.
    + unfold invoke. cbn [Chain.invoke].
      change (Chain.isPath fatal force c p) with (isPath force c p).
      rewrite isPath_unfold. cbv zeta.
      destruct (JsFs.exists_in _ _).
      * intros H. injection H as <- _. reflexivity.
      * destruct (forced force); [|discriminate].
        destruct (JsFs.mkdir_error _ _); [discriminate|].
        intros H. injection H as <- _. reflexivity.
Qed.

(** A last call after a sequence of calls. *)
Lemma invoke_all_snoc (l : list call) (m : call) (c : methods)
  (p : process) :
  invoke_all RegExp_test (l ++ [m]) c p =
    (let! c1 := invoke_all RegExp_test l c in
     invoke RegExp_test m c1) p.
Proof.
  unfold invoke_all, invoke. revert c p.
  induction l as [|x l IH]; intros c p.
  - cbn [app Chain.invoke_all]. unfold bind, ret.
    destruct (Chain.invoke fatal RegExp_test m c p) as [[?| |] ?];
      reflexivity.
  - cbn [app Chain.invoke_all]. unfold bind.
    destruct (Chain.invoke fatal RegExp_test x c p) as [[c1| |] p1];
      try reflexivity.
    rewrite IH. reflexivity.
Qed.

(** For the comparisons, the outcome is inverted exactly when [not] was
    accessed an odd number of times since the flag was last false. *)
Lemma comparison_after_nots (n : nat) (m : call) (c : methods)
  (p : process) (b : bool) :
  _NOT_ c = false ->
  computed RegExp_test m (value c) = Some b ->
  (exists c', invoke_all RegExp_test (repeat Not n ++ [m]) c p =
                (Returned c', p)) <->
  xorb b (Nat.odd n) = true.
Proof.
  intros Hflag Hb.
  rewrite invoke_all_snoc. unfold bind. rewrite nots_parity.
  destruct (comparison_contract RegExp_test m
              (set_NOT (xorb (_NOT_ c) (Nat.odd n)) c) p b)
    as (pos & neg & _ & ->); [exact Hb|].
  cbn [_NOT_ set_NOT]. rewrite Hflag. cbn [xorb].
  destruct (xorb b (Nat.odd n)); split; intros H; try reflexivity;
    try discriminate H; eauto.
  destruct H as [c' H]. discriminate H.
Qed.

End Host.

(** ** Where the chain departs from its specification *)

(** [isPath] does not read the flag: under a pending negation it does
    what it does without one. *)
Lemma isPath_ignores_negation (force : option bool) (c : methods)
  (p : process) :
  isPath force (set_NOT true c) p = isPath force (set_NOT false c) p.
Proof. rewrite !isPath_unfold. reflexivity. Qed.

(** C1 at [confirm("LOG_PATH").not.isPath(false)] for a path that
    exists: the result of the predicate, "the path exists", is true and a
    negation is pending, so the final result is false and the contract
    asks for a fatal termination with the negated wording.  The call
    returns the chain instead, the flag reset, and nothing is printed. *)
Theorem negated_isPath_on_existing_path :
  JsFs.exists_in (files with_var_log) "/var/log" = true /\
  (let! c := confirm "LOG_PATH" None in
   let! c := not c in
   ret (_NOT_ c)) with_var_log = (Returned true, with_var_log) /\
  (let! c := confirm "LOG_PATH" None in
   let! c := not c in
   isPath (Some false) c) with_var_log =
    (Returned {| name := "LOG_PATH"; value := "/var/log";
                 _NOT_ := false; valid := false |},
     with_var_log).
Proof. vm_compute. repeat split. Qed.

(** C7 at [confirm("LOG_PATH").not.isPath(false)] for a path that does
    not exist: [not] has been accessed once since the chain was created,
    so the outcome of the predicate should be inverted and the missing
    path accepted.  The call is fatal, with the wording of the plain
    case. *)
Theorem single_not_before_isPath :
  JsFs.exists_in (files app_without_logs) "/srv/app/logs" = false /\
  (let! c := confirm "LOG_PATH" None in
   let! c := not c in
   isPath (Some false) c) app_without_logs =
    (Exited 1,
     printed
       (fatal_lines (Chain.quoted "LOG_PATH" +:+ " is " +:+
                     Chain.quoted "/srv/app/logs" +:+
                     " but it does not exist!"))
       (with_env (<["LOG_PATH" := "/srv/app/logs"]> (env app_without_logs))
          app_without_logs)).
Proof. vm_compute. repeat split. Qed.

(** Resolution itself does not depend on the case of the name. *)
Lemma getValue_case_insensitive (N : string) (d : option string)
  (p : process) :
  getValue (toUpperCase N) d p = getValue N d p.
Proof.
  destruct (String.eqb_spec N EmptyString) as [->|HN]; [reflexivity|].
  rewrite !getValue_unfold;
    [|exact HN|now rewrite toUpperCase_empty].
  now rewrite toUpperCase_idempotent.
Qed.

(** C5 at the names [log_path] and [server_port].  The chain keeps the
    name as it was passed: [confirm("log_path").isPath()] reads
    [LOG_PATH] and writes the absolute path under [log_path], leaving
    [LOG_PATH] as it was, where [confirm("LOG_PATH").isPath()] rewrites
    [LOG_PATH]; and the message of a failed comparison quotes
    [server_port] in one case and [SERVER_PORT] in the other. *)
Theorem name_case_is_observable :
  let lower :=
    (let! c := confirm "log_path" None in isPath None c) app_without_logs in
  let upper :=
    (let! c := confirm "LOG_PATH" None in isPath None c) app_without_logs in
  (env (snd lower) !! "LOG_PATH" = Some "./logs" /\
   env (snd lower) !! "log_path" = Some "/srv/app/logs" /\
   env (snd upper) !! "LOG_PATH" = Some "/srv/app/logs" /\
   env (snd upper) !! "log_path" = None /\
   env (snd lower) <> env (snd upper)) /\
  (console (snd ((let! c := confirm "server_port" None in
                  isEQ (JNumber (JsNumber.of_Z 4001)) c) port_4000)) =
     fatal_lines (Chain.quoted "server_port" +:+
                  " is 4000 and must be equal to 4001") /\
   console (snd ((let! c := confirm "SERVER_PORT" None in
                  isEQ (JNumber (JsNumber.of_Z 4001)) c) port_4000)) =
     fatal_lines (Chain.quoted "SERVER_PORT" +:+
                  " is 4000 and must be equal to 4001")).
Proof.
  cbv zeta. split.
  - assert (H1 : env (snd ((let! c := confirm "log_path" None in
                            isPath None c) app_without_logs))
                 !! "log_path" = Some "/srv/app/logs") by reflexivity.
    assert (H2 : env (snd ((let! c := confirm "LOG_PATH" None in
                            isPath None c) app_without_logs))
                 !! "log_path" = None) by reflexivity.
    repeat split; try reflexivity.
    intros H. rewrite H in H1. rewrite H1 in H2. discriminate H2.
  - split; reflexivity.
Qed.

(** ** Failures *)

(** Counterexample to C4 as stated: with [SERVER_PORT=4000],
    [confirm("SERVER_PORT").isEQ(4001)] of [index.js] throws an [Error]
    that carries the message; nothing is printed and the process does not
    exit. *)
Lemma index_js_throws :
  (let! c := IndexJs.confirm "SERVER_PORT" in
   IndexJs.isEQ (JNumber (JsNumber.of_Z 4001)) c) port_4000 =
    (Thrown (Error (Chain.quoted "SERVER_PORT" +:+
                    " is 4000 and must be equal to 4001")),
     port_4000) /\
  ~ fails_by_exit port_4000
      ((let! c := IndexJs.confirm "SERVER_PORT" in
        IndexJs.isEQ (JNumber (JsNumber.of_Z 4001)) c) port_4000).
Proof.
  assert (H : (let! c := IndexJs.confirm "SERVER_PORT" in
               IndexJs.isEQ (JNumber (JsNumber.of_Z 4001)) c)
                port_4000 =
              (Thrown (Error (Chain.quoted "SERVER_PORT" +:+
                              " is 4000 and must be equal to 4001")),
               port_4000)) by (vm_compute; reflexivity).
  split; [exact H|]. rewrite H. intros [].
Qed.

Lemma exits_or_host_error_bind {A B} (m : M A) (k : A -> M B)
  (p : process) :
  exits_or_host_error p (m p) ->
  (forall a q, exits_or_host_error q (k a q)) ->
  exits_or_host_error p (bind m k p).
Proof.
  unfold exits_or_host_error, bind. intros Hm Hk.
  destruct (m p) as [[a|code|e] q]; cbn [fst snd] in *;
    [|exact Hm|exact Hm].
  specialize (Hk a q). rewrite <- Hm.
  destruct (k a q) as [[b|code|e] q']; cbn [fst snd] in *; exact Hk.
Qed.

Lemma getValue_exits (N : string) (d : option string) (p : process) :
  (exists v e, ConfirmEnvironment.getValue N d p =
                 (Returned v, with_env e p)) \/
  (exists message,
     ConfirmEnvironment.getValue N d p =
       (Exited 1, printed (fatal_lines message) p)).
Proof.
  destruct (String.eqb_spec N EmptyString) as [->|HN].
  { right. rewrite getValue_no_name. eauto. }
  rewrite getValue_unfold by exact HN. cbv zeta.
  pose proof (after_suffix_fallback_falsy (toUpperCase N) (env p))
    as Hsame.
  destruct (after_suffix_fallback (toUpperCase N) (env p))
    as [v e]. cbn [fst snd] in Hsame.
  destruct (truthy v); [left; eauto|].
  rewrite (Hsame eq_refl), with_env_same.
  destruct (truthy d); [left; eauto | right; eauto].
Qed.

Section Host.
Variable RegExp_test : string -> string -> option bool.

Lemma invoke_exits_or_host_error (m : call) (c : methods) (p : process) :
  exits_or_host_error p (ConfirmEnvironment.invoke RegExp_test m c p).
Proof.
  destruct (computed RegExp_test m (value c)) as [b|] eqn:Hb.
  - destruct (comparison_contract RegExp_test m c p b Hb)
      as (pos & neg & _ & ->).
    unfold exits_or_host_error.
    destruct (xorb b (_NOT_ c)); cbn [fst snd printed console];
      [reflexivity|]. split; [reflexivity|]. eauto.
  - destruct m; try discriminate Hb.
    + reflexivity.
    + unfold ConfirmEnvironment.invoke. cbn [Chain.invoke].
      unfold Chain.matches. cbn [computed] in Hb. rewrite Hb. exact I.
    + unfold ConfirmEnvironment.invoke. cbn [Chain.invoke].
      change (Chain.isPath ConfirmEnvironment.fatal force c p)
        with (ConfirmEnvironment.isPath force c p).
      rewrite isPath_unfold. cbv zeta. unfold exits_or_host_error.
      destruct (JsFs.exists_in _ _); [reflexivity|].
      destruct (forced force).
      * destruct (JsFs.mkdir_error _ _); [exact I | reflexivity].
      * cbn [fst snd printed console with_env].
        split; [reflexivity|]. eauto.
Qed.

Lemma invoke_all_exits_or_host_error (calls : list call) (c : methods)
  (p : process) :
  exits_or_host_error p
    (ConfirmEnvironment.invoke_all RegExp_test calls c p).
Proof.
  unfold ConfirmEnvironment.invoke_all. revert c p.
  induction calls as [|m calls IH]; intros c p.
  - reflexivity.
  - cbn [Chain.invoke_all].
    apply exits_or_host_error_bind;
      [apply invoke_exits_or_host_error | exact IH].
Qed.

(** C4, amended: in [confirm-environment], the variant whose [fatal]
    prints and calls [process.exit(1)], every failure (a configuration
    error, or a predicate whose final result is false) prints its
    message and terminates the process with status one, and no run of
    [confirm] and its chain throws an [Error] of the program; the only
    exceptions that reach the caller are the host's own.  ([index.js]
    throws an [Error] instead.) *)
Theorem failure_is_print_and_exit :
  (forall (N : string) (d : option string) (calls : list call)
          (p : process),
     exits_or_host_error p
       (ConfirmEnvironment.run RegExp_test N d calls p)) /\
  (forall (N : string) (d : option string) (p : process),
     (forall v q, ConfirmEnvironment.getValue N d p <> (Returned v, q)) ->
     exists message : string,
       ConfirmEnvironment.getValue N d p =
         (Exited 1, printed (fatal_lines message) p)) /\
  (forall (m : call) (c : methods) (p : process) (b : bool),
     computed RegExp_test m (value c) = Some b ->
     xorb b (_NOT_ c) = false ->
     exists message : string,
       ConfirmEnvironment.invoke RegExp_test m c p =
         (Exited 1, printed (fatal_lines message) p)) /\
  (forall (c : methods) (p : process),
     JsFs.exists_in (files p) (JsPath.resolve (cwd p) (value c)) = false ->
     fails_by_exit p (ConfirmEnvironment.isPath (Some false) c p)).
Proof.
  split; [|split; [|split]].
  - intros N d calls p. unfold ConfirmEnvironment.run.
    apply exits_or_host_error_bind;
      [|intros a q; apply invoke_all_exits_or_host_error].
    unfold ConfirmEnvironment.confirm.
    apply exits_or_host_error_bind; [|reflexivity].
    unfold exits_or_host_error.
    destruct (getValue_exits N d p) as [(v & e & ->)|(message & ->)];
      cbn [fst snd with_env printed console];
      [reflexivity|]. split; [reflexivity|]. eauto.
  - intros N d p Hnone.
    destruct (getValue_exits N d p) as [(v & e & H)|H]; [|exact H].
    now destruct (Hnone v (with_env e p)).
  - intros m c p b Hb Hfalse.
    destruct (comparison_contract RegExp_test m c p b Hb)
      as (pos & neg & _ & ->). rewrite Hfalse. eauto.
  - intros c p Hmissing. rewrite isPath_unfold. cbv zeta.
    rewrite Hmissing. unfold fails_by_exit.
    cbn [forced fst snd printed console with_env].
    split; [reflexivity|]. eauto.
Qed.

End Host.

Lemma failure_is_print_and_exit_witness :
  exists message : string,
    ConfirmEnvironment.invoke literal_RegExp_test
      (IsEQ (JNumber (JsNumber.of_Z 4001)))
      {| name := "SERVER_PORT"; value := "4000"; _NOT_ := false;
         valid := false |} port_4000 =
      (Exited 1, printed (fatal_lines message) port_4000).
Proof.
  destruct (failure_is_print_and_exit literal_RegExp_test)
    as (_ & _ & Hpredicate & _).
  exact (Hpredicate (IsEQ (JNumber (JsNumber.of_Z 4001)))
           {| name := "SERVER_PORT"; value := "4000"; _NOT_ := false;
              valid := false |} port_4000 false
           eq_refl eq_refl).
Defined.

(** ** Numeric comparisons *)

(** C8: with [SERVER_PORT] bound to the string ["4000"],
    [confirm("SERVER_PORT").isGE(1000).isLE(60000)] returns the chain and
    prints nothing, and [confirm("SERVER_PORT").isEQ(4001)] is fatal, in
    both files: [confirm-environment] prints the message and exits,
    [index.js] throws it.  The comparisons with a number go through
    [StringToNumber]: ["4000"] is the number 4000. *)
Theorem server_port_example
  (RegExp_test : string -> string -> option bool) (p : process) :
  env p !! "SERVER_PORT" = Some "4000" ->
  (ConfirmEnvironment.run RegExp_test "SERVER_PORT" None
     [IsGE (JNumber (JsNumber.of_Z 1000));
      IsLE (JNumber (JsNumber.of_Z 60000))] p =
     (Returned {| name := "SERVER_PORT"; value := "4000"; _NOT_ := false;
                  valid := true |}, p) /\
   ConfirmEnvironment.run RegExp_test "SERVER_PORT" None
     [IsEQ (JNumber (JsNumber.of_Z 4001))] p =
     (Exited 1,
      printed (fatal_lines (Chain.quoted "SERVER_PORT" +:+
                            " is 4000 and must be equal to 4001")) p)) /\
  (IndexJs.run RegExp_test "SERVER_PORT"
     [IsGE (JNumber (JsNumber.of_Z 1000));
      IsLE (JNumber (JsNumber.of_Z 60000))] p =
     (Returned {| name := "SERVER_PORT"; value := "4000"; _NOT_ := false;
                  valid := true |}, p) /\
   IndexJs.run RegExp_test "SERVER_PORT"
     [IsEQ (JNumber (JsNumber.of_Z 4001))] p =
     (Thrown (Error (Chain.quoted "SERVER_PORT" +:+
                     " is 4000 and must be equal to 4001")), p)) /\
  JsNumber.of_string "4000" = JsNumber.of_Z 4000 /\
  (forall (v : string) (n : JsNumber.number),
     js_ge (JString v) (JNumber n) =
       match JsNumber.lt (JsNumber.of_string v) n with
       | Some b => negb b
       | None => false
       end) /\
  (forall (v : string) (n : JsNumber.number),
     js_le (JString v) (JNumber n) =
       match JsNumber.lt n (JsNumber.of_string v) with
       | Some b => negb b
       | None => false
       end) /\
  (forall (v : string) (n : JsNumber.number),
     loose_eq v (JNumber n) = JsNumber.equal (JsNumber.of_string v) n).
Proof.
  intros Hport.
  assert (Hlookup : lookup_with_fallback "SERVER_PORT" p =
                      (Returned (Some "4000"), p)).
  { rewrite lookup_with_fallback_eq. unfold after_suffix_fallback.
    rewrite Hport. cbn [truthy String.eqb Ascii.eqb negb fst snd].
    now rewrite with_env_same. }
  assert (Hconfirm : ConfirmEnvironment.confirm "SERVER_PORT" None p =
    (Returned (new_chain "SERVER_PORT" "4000"), p)).
  { unfold ConfirmEnvironment.confirm, ConfirmEnvironment.getValue.
    change (toUpperCase "SERVER_PORT") with "SERVER_PORT".
    cbn [truthy String.eqb Ascii.eqb negb orb].
    cbv beta delta [bind ret] iota. rewrite Hlookup. reflexivity. }
  assert (Hindex : IndexJs.confirm "SERVER_PORT" p =
    (Returned (new_chain "SERVER_PORT" "4000"), p)).
  { unfold IndexJs.confirm, IndexJs.getValue.
    change (toUpperCase "SERVER_PORT") with "SERVER_PORT".
    cbn [truthy String.eqb Ascii.eqb negb orb].
    cbv beta delta [bind ret] iota. rewrite Hlookup. reflexivity. }
  unfold ConfirmEnvironment.run, IndexJs.run.
  split; [split|split; [split|repeat split]].
  - unfold bind at 1. rewrite Hconfirm. vm_compute. reflexivity.
  - unfold bind at 1. rewrite Hconfirm.
    unfold ConfirmEnvironment.invoke_all. cbn [Chain.invoke_all Chain.invoke].
    unfold bind, Chain.isEQ. rewrite settle_eq. reflexivity.
  - unfold bind at 1. rewrite Hindex. vm_compute. reflexivity.
  - unfold bind at 1. rewrite Hindex. vm_compute. reflexivity.
Qed.

Lemma server_port_example_witness :
  ConfirmEnvironment.run literal_RegExp_test "SERVER_PORT" None
    [IsGE (JNumber (JsNumber.of_Z 1000));
     IsLE (JNumber (JsNumber.of_Z 60000))] port_4000 =
    (Returned {| name := "SERVER_PORT"; value := "4000"; _NOT_ := false;
                 valid := true |}, port_4000).
Proof.
  exact (proj1 (proj1 (server_port_example literal_RegExp_test
                         port_4000 eq_refl))).
Defined.

End Properties.

(** * Further properties of the code *)

Section MoreProperties.
Import JsString JsValue.

Ltac js_run :=
  cbv beta delta [bind ret throw process_exit console_info env_get env_set
                  env_delete path_resolve fs_existsSync fs_mkdirSync] iota;
  cbn [env files cwd console fst snd].

(** ** The comparisons *)

Section Engine.
Variable RegExp_test : string -> string -> option bool.

(** X1: a comparison ([is], [isDefined], [isEQ], [isGT], [isGE], [isLT],
    [isLE], [hasLength], [contains], [isIn], and [matches] with a pattern
    that the engine accepts) passes exactly when the boolean it computes,
    inverted under a pending negation, is true.  When it passes it returns
    the chain with the same name and value and the flag reset, and the
    process is as before: nothing is printed, and neither the table nor the
    file system is touched.  When it does not pass it prints its message and
    exits with status one, again without touching the table or the file
    system. *)
Theorem comparison_passes_or_is_fatal
  (m : call) (c : methods) (p : process) (b : bool) :
  computed RegExp_test m (value c) = Some b ->
  (xorb b (_NOT_ c) = true ->
     ConfirmEnvironment.invoke RegExp_test m c p =
       (Returned {| name := name c; value := value c; _NOT_ := false;
                    valid := true |}, p)) /\
  (xorb b (_NOT_ c) = false ->
     exists message : string,
       ConfirmEnvironment.invoke RegExp_test m c p =
         (Exited 1, printed (fatal_lines message) p) /\
       env (printed (fatal_lines message) p) = env p /\
       files (printed (fatal_lines message) p) = files p).
Proof.
  intros Hb.
  destruct (comparison_contract RegExp_test m c p b Hb)
    as (pos & neg & _ & ->).
  split; intros ->.
  - reflexivity.
  - eexists. repeat split.
Qed.

End Engine.

Lemma comparison_passes_or_is_fatal_witness :
  ConfirmEnvironment.invoke literal_RegExp_test (Contains "00")
    {| name := "SERVER_PORT"; value := "4000"; _NOT_ := false;
       valid := false |} port_4000 =
    (Returned {| name := "SERVER_PORT"; value := "4000"; _NOT_ := false;
                 valid := true |}, port_4000).
Proof.
  exact (proj1 (comparison_passes_or_is_fatal literal_RegExp_test
                  (Contains "00")
                  {| name := "SERVER_PORT"; value := "4000"; _NOT_ := false;
                     valid := false |} port_4000 true eq_refl) eq_refl).
Defined.

(** ** Sequences of calls *)

Section Sequences.
Variable RegExp_test : string -> string -> option bool.

Lemma invoke_all_app (l1 l2 : list call) (c : methods) (p : process) :
  ConfirmEnvironment.invoke_all RegExp_test (l1 ++ l2) c p =
    (let! c1 := ConfirmEnvironment.invoke_all RegExp_test l1 c in
     ConfirmEnvironment.invoke_all RegExp_test l2 c1) p.
Proof.
  unfold ConfirmEnvironment.invoke_all. revert c p.
  induction l1 as [|x l1 IH]; intros c p.
  - reflexivity.
  - cbn [app Chain.invoke_all]. unfold bind.
    destruct (Chain.invoke ConfirmEnvironment.fatal RegExp_test x c p)
      as [[c1| |] p1]; try reflexivity.
    rewrite IH. reflexivity.
Qed.

Lemma passes_iff (m : call) (c : methods) (p : process) (b : bool) :
  computed RegExp_test m (value c) = Some b ->
  passes RegExp_test m c p <-> xorb b (_NOT_ c) = true.
Proof.
  intros Hb. unfold passes.
  destruct (comparison_contract RegExp_test m c p b Hb)
    as (pos & neg & _ & ->).
  destruct (xorb b (_NOT_ c)); split; intros H; try reflexivity;
    try discriminate H; eauto.
  destruct H as [c' H]. discriminate H.
Qed.

(** X2: accesses of [not] cancel in pairs.  A run of [n] accesses before
    the rest of a chain does what a single access does when [n] is odd, and
    what no access does when [n] is even. *)
Theorem nots_cancel_in_pairs (n : nat) (ms : list call) (c : methods)
  (p : process) :
  ConfirmEnvironment.invoke_all RegExp_test (repeat Not n ++ ms) c p =
    ConfirmEnvironment.invoke_all RegExp_test
      ((if Nat.odd n then [Not] else []) ++ ms) c p.
Proof.
  rewrite invoke_all_app. unfold bind. rewrite nots_parity.
  destruct (Nat.odd n); destruct c as [nm v [] b]; reflexivity.
Qed.

(** The chain after the comparisons of a list have passed. *)
Lemma items_run (items : list (bool * call)) (c : methods) (p : process) :
  _NOT_ c = false ->
  Forall (fun item : bool * call =>
            is_Some (computed RegExp_test (snd item) (value c))) items ->
  (Forall (fun item : bool * call =>
             computed RegExp_test (snd item) (value c) =
               Some (negb (fst item))) items /\
   exists c', ConfirmEnvironment.invoke_all RegExp_test (calls_of items) c p =
                (Returned c', p) /\
              name c' = name c /\ value c' = value c /\ _NOT_ c' = false) \/
  (~ Forall (fun item : bool * call =>
               computed RegExp_test (snd item) (value c) =
                 Some (negb (fst item))) items /\
   exists message,
     ConfirmEnvironment.invoke_all RegExp_test (calls_of items) c p =
       (Exited 1, printed (fatal_lines message) p)).
Proof.
  intros Hflag Hdef. revert c Hflag Hdef.
  induction items as [|[neg m] items IH]; intros c Hflag Hdef.
  - left. split; [constructor|]. exists c. repeat split. exact Hflag.
  - inversion Hdef as [|? ? [b Hb] Hrest]; subst. cbn [fst snd] in Hb.
    set (c1 := if neg then set_NOT true c else c).
    assert (Hc1 : value c1 = value c /\ name c1 = name c /\ _NOT_ c1 = neg).
    { subst c1. destruct neg; cbn; repeat split. exact Hflag. }
    destruct Hc1 as (Hv1 & Hn1 & Hf1).
    assert (Hrun : ConfirmEnvironment.invoke_all RegExp_test
                     (calls_of ((neg, m) :: items)) c p =
                   (let! c2 := ConfirmEnvironment.invoke RegExp_test m c1 in
                    ConfirmEnvironment.invoke_all RegExp_test
                      (calls_of items) c2) p).
    { subst c1. destruct neg; [|reflexivity].
      destruct c as [nm v fl vl]. cbn in Hflag. subst fl. reflexivity. }
    rewrite Hrun. unfold bind.
    destruct (comparison_contract RegExp_test m c1 p b)
      as (pos & ng & _ & ->); [now rewrite Hv1|].
    rewrite Hf1. destruct (xorb b neg) eqn:Hx.
    + assert (Hbn : b = negb neg)
        by (destruct b, neg; try reflexivity; discriminate Hx).
      destruct (IH (settled true c1)) as [(Hall & c' & Hr & Hn & Hv & Hf)
                                          |(Hnot & msg & Hr)].
      * reflexivity.
      * cbn [settled value]. now rewrite Hv1.
      * left. split.
        -- constructor; [cbn [fst snd]; congruence|].
           cbn [settled value] in Hall. now rewrite Hv1 in Hall.
        -- exists c'. rewrite Hr. cbn [settled name value] in Hn, Hv.
           repeat split; congruence.
      * right. split.
        -- intros Hall. apply Hnot. inversion Hall as [|? ? _ Htail].
           cbn [settled value]. now rewrite Hv1.
        -- exists msg. exact Hr.
    + right. split.
      * intros Hall. inversion Hall as [|? ? Hhead _].
        cbn [fst snd] in Hhead. rewrite Hb in Hhead.
        injection Hhead as ->. destruct neg; discriminate Hx.
      * eauto.
Qed.

(** X3: a chain of comparisons, each with or without [not] before it,
    started with the flag down, passes exactly when every comparison
    computes the boolean that its spelling asks for: true without [not],
    false with it.  The chain that comes back has the name and the value it
    had and the flag down.  Hence the order of the comparisons does not
    matter for whether the chain passes. *)
Theorem chain_passes_iff_every_item_holds
  (items : list (bool * call)) (c : methods) (p : process) :
  _NOT_ c = false ->
  Forall (fun item : bool * call =>
            is_Some (computed RegExp_test (snd item) (value c))) items ->
  (all_pass RegExp_test (calls_of items) c p <->
   Forall (fun item : bool * call =>
             computed RegExp_test (snd item) (value c) =
               Some (negb (fst item))) items) /\
  (forall c' q,
     ConfirmEnvironment.invoke_all RegExp_test (calls_of items) c p =
       (Returned c', q) ->
     q = p /\ name c' = name c /\ value c' = value c /\ _NOT_ c' = false) /\
  (forall items' : list (bool * call),
     Permutation items items' ->
     all_pass RegExp_test (calls_of items) c p <->
     all_pass RegExp_test (calls_of items') c p).
Proof.
  intros Hflag Hdef.
  assert (Hiff : forall its,
    Forall (fun item : bool * call =>
              is_Some (computed RegExp_test (snd item) (value c))) its ->
    all_pass RegExp_test (calls_of its) c p <->
    Forall (fun item : bool * call =>
              computed RegExp_test (snd item) (value c) =
                Some (negb (fst item))) its).
  { intros its Hd. unfold all_pass.
    destruct (items_run its c p Hflag Hd)
      as [(Hall & c' & Hr & _)|(Hnot & msg & Hr)].
    - split; [intros _; exact Hall | intros _; eauto].
    - split; [|intros H; now destruct (Hnot H)].
      intros [c' H]. rewrite Hr in H. discriminate H. }
  split; [apply Hiff; exact Hdef|]. split.
  - intros c' q Hr.
    destruct (items_run items c p Hflag Hdef)
      as [(_ & c2 & Hr2 & Hn & Hv & Hf)|(_ & msg & Hr2)];
      rewrite Hr2 in Hr; [|discriminate Hr].
    injection Hr as <- <-. repeat split; assumption.
  - intros items' Hperm.
    rewrite (Hiff items Hdef).
    rewrite (Hiff items') by (now rewrite <- Hperm).
    now rewrite Hperm.
Qed.

End Sequences.

Lemma chain_passes_iff_every_item_holds_witness :
  all_pass literal_RegExp_test
    (calls_of [(false, IsGE (JNumber (JsNumber.of_Z 1000)));
               (true, IsEQ (JNumber (JsNumber.of_Z 4001)))])
    (new_chain "SERVER_PORT" "4000") port_4000.
Proof.
  apply (proj1 (chain_passes_iff_every_item_holds literal_RegExp_test
                  [(false, IsGE (JNumber (JsNumber.of_Z 1000)));
                   (true, IsEQ (JNumber (JsNumber.of_Z 4001)))]
                  (new_chain "SERVER_PORT" "4000") port_4000 eq_refl
                  ltac:(repeat constructor; eexists; reflexivity))).
  repeat constructor.
Defined.

(** ** What the comparisons compare *)

Lemma lt_None_iff (x y : JsNumber.number) :
  JsNumber.lt x y = None <-> x = JsNumber.NaN \/ y = JsNumber.NaN.
Proof.
  destruct x, y; cbn; try (split; [discriminate | intros [H|H]; discriminate H]);
    try (split; [auto | reflexivity]).
Qed.

Lemma number_trichotomy (x y : JsNumber.number) :
  x <> JsNumber.NaN -> y <> JsNumber.NaN ->
  exists a b e : bool,
    JsNumber.lt x y = Some a /\ JsNumber.lt y x = Some b /\
    JsNumber.equal x y = e /\
    (a = true /\ b = false /\ e = false \/
     a = false /\ b = true /\ e = false \/
     a = false /\ b = false /\ e = true).
Proof.
  intros Hx Hy.
  destruct x as [| | |m1 e1], y as [| | |m2 e2]; try (now destruct Hx);
    try (now destruct Hy); cbn;
    try (do 3 eexists; repeat split; tauto).
  unfold JsNumber.align. rewrite (Z.min_comm e2 e1).
  set (A := (m1 * 10 ^ (e1 - Z.min e1 e2))%Z).
  set (B := (m2 * 10 ^ (e2 - Z.min e1 e2))%Z).
  exists (A <? B)%Z, (B <? A)%Z, (A =? B)%Z. repeat split.
  destruct (Z.lt_trichotomy A B) as [H|[H|H]].
  - left. repeat split; [apply Z.ltb_lt | apply Z.ltb_ge | apply Z.eqb_neq]; lia.
  - right. right.
    repeat split; [apply Z.ltb_ge | apply Z.ltb_ge | apply Z.eqb_eq]; lia.
  - right. left.
    repeat split; [apply Z.ltb_ge | apply Z.ltb_lt | apply Z.eqb_neq]; lia.
Qed.

Section Comparisons.
Variable RegExp_test : string -> string -> option bool.

(** X4: for a value that reads as a number and a number to compare it
    with, exactly one of [isLT], [isEQ] and [isGT] passes, [isLE] passes
    when [isLT] or [isEQ] does, and [isGE] when [isGT] or [isEQ] does (a
    chain with the flag down). *)
Theorem numeric_comparisons_are_an_order
  (n : JsNumber.number) (c : methods) (p : process) :
  _NOT_ c = false ->
  JsNumber.of_string (value c) <> JsNumber.NaN ->
  n <> JsNumber.NaN ->
  (passes RegExp_test (IsLT (JNumber n)) c p /\
   ~ passes RegExp_test (IsEQ (JNumber n)) c p /\
   ~ passes RegExp_test (IsGT (JNumber n)) c p \/
   ~ passes RegExp_test (IsLT (JNumber n)) c p /\
   passes RegExp_test (IsEQ (JNumber n)) c p /\
   ~ passes RegExp_test (IsGT (JNumber n)) c p \/
   ~ passes RegExp_test (IsLT (JNumber n)) c p /\
   ~ passes RegExp_test (IsEQ (JNumber n)) c p /\
   passes RegExp_test (IsGT (JNumber n)) c p) /\
  (passes RegExp_test (IsLE (JNumber n)) c p <->
   passes RegExp_test (IsLT (JNumber n)) c p \/
   passes RegExp_test (IsEQ (JNumber n)) c p) /\
  (passes RegExp_test (IsGE (JNumber n)) c p <->
   passes RegExp_test (IsGT (JNumber n)) c p \/
   passes RegExp_test (IsEQ (JNumber n)) c p).
Proof.
  intros Hflag Hv Hn.
  destruct (number_trichotomy _ _ Hv Hn) as (a & b & e & Ha & Hb & He & Hcases).
  rewrite (passes_iff RegExp_test (IsLT (JNumber n)) c p a),
    (passes_iff RegExp_test (IsEQ (JNumber n)) c p e),
    (passes_iff RegExp_test (IsGT (JNumber n)) c p b),
    (passes_iff RegExp_test (IsLE (JNumber n)) c p (negb b)),
    (passes_iff RegExp_test (IsGE (JNumber n)) c p (negb a)).
  - rewrite Hflag.
    destruct Hcases as [(-> & -> & ->)|[(-> & -> & ->)|(-> & -> & ->)]];
      cbn; intuition congruence.
  - cbn [computed]. unfold js_ge, less_than. cbn [ToNumber]. now rewrite Ha.
  - cbn [computed]. unfold js_le, less_than. cbn [ToNumber]. now rewrite Hb.
  - cbn [computed]. unfold js_gt, less_than. cbn [ToNumber]. now rewrite Hb.
  - cbn [computed]. unfold loose_eq. cbn [ToNumber]. now rewrite He.
  - cbn [computed]. unfold js_lt, less_than. cbn [ToNumber]. now rewrite Ha.
Qed.

(** X5: when the value does not read as a number, or the number to compare
    with is [NaN], none of [is], [isEQ], [isLT], [isLE], [isGT] and [isGE]
    passes with the flag down, and every one of them passes after [not]. *)
Theorem comparison_with_NaN
  (n : JsNumber.number) (c : methods) (p : process) (m : call) :
  JsNumber.of_string (value c) = JsNumber.NaN \/ n = JsNumber.NaN ->
  In m [Is (JNumber n); IsEQ (JNumber n); IsLT (JNumber n);
        IsLE (JNumber n); IsGT (JNumber n); IsGE (JNumber n)] ->
  (passes RegExp_test m c p <-> _NOT_ c = true).
Proof.
  intros Hnan Hm.
  assert (H1 : JsNumber.lt (JsNumber.of_string (value c)) n = None)
    by (apply lt_None_iff; tauto).
  assert (H2 : JsNumber.lt n (JsNumber.of_string (value c)) = None)
    by (apply lt_None_iff; tauto).
  assert (H3 : JsNumber.equal (JsNumber.of_string (value c)) n = false).
  { destruct Hnan as [-> | ->]; [reflexivity|].
    destruct (JsNumber.of_string (value c)); reflexivity. }
  rewrite (passes_iff RegExp_test m c p false).
  - destruct (_NOT_ c); cbn; intuition congruence.
  - cbn [In] in Hm.
    destruct Hm as [<-|[<-|[<-|[<-|[<-|[<-|[]]]]]]]; cbn [computed];
      unfold loose_eq, js_lt, js_le, js_gt, js_ge, less_than;
      cbn [ToNumber]; rewrite ?H1, ?H2, ?H3; reflexivity.
Qed.

Lemma lt_integers (a b : Z) :
  JsNumber.lt (JsNumber.of_Z a) (JsNumber.of_Z b) = Some (a <? b)%Z.
Proof.
  unfold JsNumber.of_Z, JsNumber.lt, JsNumber.align.
  change (10 ^ (0 - Z.min 0 0))%Z with 1%Z. now rewrite !Z.mul_1_r.
Qed.

(** X6: with whole numbers as bounds, [hasLength(min, max)] passes exactly
    when the length of the value lies between them, both included; in
    particular it never passes when [min] is above [max] (a chain with the
    flag down). *)
Theorem hasLength_integer_bounds (lo hi : Z) (c : methods) (p : process) :
  _NOT_ c = false ->
  (passes RegExp_test
     (HasLength (JsNumber.of_Z lo) (JsNumber.of_Z hi)) c p <->
   (lo <= Z.of_nat (String.length (value c)) <= hi)%Z) /\
  ((hi < lo)%Z ->
   ~ passes RegExp_test
       (HasLength (JsNumber.of_Z lo) (JsNumber.of_Z hi)) c p).
Proof.
  intros Hflag.
  assert (Hiff : passes RegExp_test
            (HasLength (JsNumber.of_Z lo) (JsNumber.of_Z hi)) c p <->
          (lo <= Z.of_nat (String.length (value c)) <= hi)%Z).
  { rewrite (passes_iff RegExp_test _ c p
               ((lo <=? Z.of_nat (String.length (value c)))%Z &&
                (Z.of_nat (String.length (value c)) <=? hi)%Z)).
    - rewrite Hflag, xorb_false_r, andb_true_iff, !Z.leb_le. tauto.
    - cbn [computed]. unfold js_ge, js_le, less_than, Chain.length_of.
      cbn [ToNumber]. rewrite !lt_integers.
      now rewrite !Z.leb_antisym. }
  split; [exact Hiff|]. intros Hlt H. apply Hiff in H. lia.
Qed.

Lemma prefix_iff (sub s : string) :
  String.prefix sub s = true <-> exists b, s = sub +:+ b.
Proof.
  revert s. induction sub as [|x sub IH]; intros s.
  - destruct s; cbn; split; eauto.
  - destruct s as [|y s]; cbn.
    + split; [discriminate | intros [b H]; discriminate H].
    + destruct (ascii_dec x y) as [->|Hne].
      * rewrite IH. split; intros [b H]; exists b;
          [now rewrite H | now injection H].
      * split; [discriminate | intros [b H]; injection H; congruence].
Qed.

Lemma includes_iff (s sub : string) :
  includes s sub = true <-> exists a b, s = a +:+ sub +:+ b.
Proof.
  induction s as [|x s IH]; cbn [includes].
  - rewrite orb_false_r, prefix_iff. split.
    + intros [b H]. exists EmptyString, b. exact H.
    + intros (a & b & H). destruct a as [|y a]; [eauto|discriminate H].
  - rewrite orb_true_iff, prefix_iff, IH. split.
    + intros [[b H]|(a & b & H)].
      * exists EmptyString, b. exact H.
      * exists (String x a), b. now rewrite H.
    + intros (a & b & H). destruct a as [|y a].
      * left. eauto.
      * right. exists a, b.
        change (String x s = String y (a +:+ sub +:+ b)) in H.
        now injection H.
Qed.

(** X7: [contains(substring)] passes exactly when the value can be cut
    into a beginning, the substring and an end; the empty substring is
    contained in every value (a chain with the flag down). *)
Theorem contains_iff_substring (substring : string) (c : methods)
  (p : process) :
  _NOT_ c = false ->
  (passes RegExp_test (Contains substring) c p <->
   exists a b : string, value c = a +:+ substring +:+ b) /\
  passes RegExp_test (Contains EmptyString) c p.
Proof.
  intros Hflag.
  assert (Hiff : forall sub, passes RegExp_test (Contains sub) c p <->
                             exists a b : string, value c = a +:+ sub +:+ b).
  { intros sub.
    rewrite (passes_iff RegExp_test _ c p (includes (value c) sub))
      by reflexivity.
    now rewrite Hflag, xorb_false_r, includes_iff. }
  split; [apply Hiff|]. apply Hiff. exists EmptyString, (value c). reflexivity.
Qed.

(** X8: [isIn(values)] passes exactly when the value is an element of the
    array as a string.  No conversion takes place: an array without strings
    accepts no value, even where [isEQ] with one of its elements passes (a
    chain with the flag down). *)
Theorem isIn_iff_string_element (values : list jsval) (c : methods)
  (p : process) :
  _NOT_ c = false ->
  (passes RegExp_test (IsIn values) c p <-> In (JString (value c)) values) /\
  ((forall s : string, ~ In (JString s) values) ->
   ~ passes RegExp_test (IsIn values) c p).
Proof.
  intros Hflag.
  assert (Hiff : passes RegExp_test (IsIn values) c p <->
                 In (JString (value c)) values).
  { rewrite (passes_iff RegExp_test _ c p
               (array_includes values (value c))) by reflexivity.
    rewrite Hflag, xorb_false_r. unfold array_includes.
    rewrite existsb_exists. split.
    - intros ([| | | |s] & Hin & Heq); try discriminate Heq.
      apply String.eqb_eq in Heq. now subst s.
    - intros Hin. exists (JString (value c)). split; [exact Hin|].
      apply String.eqb_refl. }
  split; [exact Hiff|]. intros Hnone H. apply Hiff in H.
  exact (Hnone _ H).
Qed.

(** X9: the value of a chain is a string, so [isDefined] can only fail
    through a negation: it passes exactly when the flag is down. *)
Theorem isDefined_iff_not_negated (c : methods) (p : process) :
  passes RegExp_test IsDefined c p <-> _NOT_ c = false.
Proof.
  rewrite (passes_iff RegExp_test IsDefined c p true) by reflexivity.
  destruct (_NOT_ c); cbn; intuition congruence.
Qed.

End Comparisons.

Lemma numeric_comparisons_are_an_order_witness :
  passes literal_RegExp_test (IsLE (JNumber (JsNumber.of_Z 4001)))
    (new_chain "SERVER_PORT" "4000") port_4000 <->
  passes literal_RegExp_test (IsLT (JNumber (JsNumber.of_Z 4001)))
    (new_chain "SERVER_PORT" "4000") port_4000 \/
  passes literal_RegExp_test (IsEQ (JNumber (JsNumber.of_Z 4001)))
    (new_chain "SERVER_PORT" "4000") port_4000.
Proof.
  refine (proj1 (proj2 (numeric_comparisons_are_an_order literal_RegExp_test
                          (JsNumber.of_Z 4001)
                          (new_chain "SERVER_PORT" "4000") port_4000
                          eq_refl _ _))); discriminate.
Defined.

Lemma comparison_with_NaN_witness :
  passes literal_RegExp_test (IsGE (JNumber (JsNumber.of_Z 1)))
    {| name := "MODE"; value := "abc"; _NOT_ := true; valid := false |}
    port_4000 <-> true = true.
Proof.
  apply (comparison_with_NaN literal_RegExp_test (JsNumber.of_Z 1)
           {| name := "MODE"; value := "abc"; _NOT_ := true; valid := false |}
           port_4000 (IsGE (JNumber (JsNumber.of_Z 1)))).
  - left. reflexivity.
  - cbn. tauto.
Defined.

Lemma hasLength_integer_bounds_witness :
  passes literal_RegExp_test
    (HasLength (JsNumber.of_Z 1) (JsNumber.of_Z 5))
    (new_chain "SERVER_PORT" "4000") port_4000 <->
  (1 <= Z.of_nat (String.length "4000") <= 5)%Z.
Proof.
  exact (proj1 (hasLength_integer_bounds literal_RegExp_test 1 5
                  (new_chain "SERVER_PORT" "4000") port_4000 eq_refl)).
Defined.

Lemma contains_iff_substring_witness :
  passes literal_RegExp_test (Contains EmptyString)
    (new_chain "SERVER_PORT" "4000") port_4000.
Proof.
  exact (proj2 (contains_iff_substring literal_RegExp_test "00"
                  (new_chain "SERVER_PORT" "4000") port_4000 eq_refl)).
Defined.

Lemma isIn_iff_string_element_witness :
  ~ passes literal_RegExp_test (IsIn [JNumber (JsNumber.of_Z 4000)])
      (new_chain "SERVER_PORT" "4000") port_4000.
Proof.
  apply (proj2 (isIn_iff_string_element literal_RegExp_test
                  [JNumber (JsNumber.of_Z 4000)]
                  (new_chain "SERVER_PORT" "4000") port_4000 eq_refl)).
  intros s [H|[]]. discriminate H.
Defined.

(** ** Value resolution in both files *)

Ltac js_eval :=
  repeat (js_run;
          cbn [truthy negb andb orb String.eqb Ascii.eqb default from_option]).

(** The message of [index.js] for a variable without a value. *)
Lemma index_getValue_unfold (N : string) (p : process) :
  N <> EmptyString ->
  IndexJs.getValue N p =
    if truthy (fst (after_suffix_fallback (toUpperCase N) (env p)))
    then (Returned (default EmptyString
                      (fst (after_suffix_fallback (toUpperCase N) (env p)))),
          with_env (snd (after_suffix_fallback (toUpperCase N) (env p))) p)
    else (Thrown (Error ("The " +:+ dquote +:+ toUpperCase N +:+ dquote +:+
                         " environment variable is undefined!")), p).
Proof.
  intros HN. unfold IndexJs.getValue. rewrite (name_given _ HN).
  cbv beta delta [bind ret] iota. rewrite lookup_with_fallback_eq.
  pose proof (after_suffix_fallback_falsy (toUpperCase N) (env p)) as Hsame.
  destruct (after_suffix_fallback (toUpperCase N) (env p)) as [value e].
  cbn [fst snd] in *.
  destruct value as [[|x v]|]; js_eval; rewrite ?fatal_throws;
    try reflexivity; rewrite (Hsame eq_refl), with_env_same; reflexivity.
Qed.

Lemma after_suffix_fallback_bound (U : string) (e : gmap string string) :
  truthy (fst (after_suffix_fallback U e)) = true ->
  snd (after_suffix_fallback U e) !! U = fst (after_suffix_fallback U e).
Proof.
  unfold after_suffix_fallback.
  destruct (truthy (e !! U)) eqn:HU; [reflexivity|].
  destruct (e !! "NODE_ENV") as [mode|]; [|cbn [fst]; congruence].
  destruct (truthy (Some mode)); [|cbn [fst]; congruence].
  destruct (e !! suffixed U mode) as [v|]; [|discriminate].
  destruct (truthy (Some v)) eqn:Hv; [|cbn [fst]; congruence].
  intros _. cbn [fst snd].
  rewrite lookup_delete_ne by apply suffixed_ne. apply lookup_insert_eq.
Qed.

Lemma truthy_default (o : option string) :
  truthy o = true -> o = Some (default EmptyString o) /\
                     default EmptyString o <> EmptyString.
Proof.
  destruct o as [s|]; [|discriminate]. intros H. split; [reflexivity|].
  now apply truthy_Some.
Qed.

(** X10: when [getValue] returns, in either file, the value is not the
    empty string, the table binds the uppercased name to it, and nothing
    was printed or done to the file system. *)
Theorem getValue_returns_what_the_table_holds
  (N : string) (d : option string) (p q : process) (v : string) :
  ConfirmEnvironment.getValue N d p = (Returned v, q) \/
    IndexJs.getValue N p = (Returned v, q) ->
  v <> EmptyString /\
  env q !! toUpperCase N = Some v /\
  files q = files p /\ cwd q = cwd p /\ console q = console p.
Proof.
  intros H.
  destruct (String.eqb_spec N EmptyString) as [->|HN].
  { destruct H as [H|H]; [rewrite getValue_no_name in H|]; discriminate H. }
  pose proof (after_suffix_fallback_bound (toUpperCase N) (env p)) as Hb.
  destruct H as [H|H].
  - rewrite getValue_unfold in H by exact HN. cbv zeta in H.
    destruct (after_suffix_fallback (toUpperCase N) (env p)) as [value e].
    cbn [fst snd] in Hb.
    destruct (truthy value) eqn:Hv.
    + injection H as <- <-. destruct (truthy_default _ Hv) as [Hs Hne].
      repeat split; try exact Hne. cbn [with_env env]. rewrite Hb; auto.
    + destruct (truthy d) eqn:Hd; [|discriminate H].
      injection H as <- <-. destruct (truthy_default _ Hd) as [Hs Hne].
      repeat split; try exact Hne. cbn [with_env env].
      apply lookup_insert_eq.
  - rewrite index_getValue_unfold in H by exact HN.
    destruct (after_suffix_fallback (toUpperCase N) (env p)) as [value e].
    cbn [fst snd] in *.
    destruct (truthy value) eqn:Hv; [|discriminate H].
    injection H as <- <-. destruct (truthy_default _ Hv) as [Hs Hne].
    repeat split; try exact Hne. cbn [with_env env]. rewrite Hb; auto.
Qed.

Lemma getValue_returns_what_the_table_holds_witness :
  env (snd (ConfirmEnvironment.getValue "name" None test_mode)) !! "NAME" =
    Some "from-test".
Proof.
  exact (proj1 (proj2 (getValue_returns_what_the_table_holds "name" None
                         test_mode _ "from-test" (or_introl eq_refl)))).
Defined.

Lemma after_suffix_fallback_frame (U k : string) (e : gmap string string) :
  k <> U ->
  (forall mode, e !! "NODE_ENV" = Some mode -> k <> suffixed U mode) ->
  snd (after_suffix_fallback U e) !! k = e !! k.
Proof.
  intros HU Hs. unfold after_suffix_fallback.
  destruct (truthy (e !! U)); [reflexivity|].
  destruct (e !! "NODE_ENV") as [mode|] eqn:Hmode; [|reflexivity].
  destruct (truthy (Some mode)); [|reflexivity].
  destruct (e !! suffixed U mode) as [v|]; [|reflexivity].
  destruct (truthy (Some v)); [|reflexivity]. cbn [snd].
  rewrite lookup_delete_ne by (apply not_eq_sym, (Hs mode eq_refl)).
  now rewrite lookup_insert_ne by (apply not_eq_sym, HU).
Qed.

Lemma getValue_returns_what_the_table_holds_aux
  (N : string) (d : option string) (p q : process) (v : string) :
  ConfirmEnvironment.getValue N d p = (Returned v, q) ->
  v <> EmptyString /\ env q !! toUpperCase N = Some v /\ N <> EmptyString.
Proof.
  intros H.
  destruct (String.eqb_spec N EmptyString) as [->|HN].
  { rewrite getValue_no_name in H. discriminate H. }
  pose proof (after_suffix_fallback_bound (toUpperCase N) (env p)) as Hb.
  rewrite getValue_unfold in H by exact HN. cbv zeta in H.
  destruct (after_suffix_fallback (toUpperCase N) (env p)) as [value e].
  cbn [fst snd] in Hb.
  destruct (truthy value) eqn:Hv.
  - injection H as <- <-. destruct (truthy_default _ Hv) as [Hs Hne].
    repeat split; try assumption. cbn [with_env env]. rewrite Hb; auto.
  - destruct (truthy d) eqn:Hd; [|discriminate H].
    injection H as <- <-. destruct (truthy_default _ Hd) as [Hs Hne].
    repeat split; try assumption. cbn [with_env env].
    apply lookup_insert_eq.
Qed.

(** X11: whatever its outcome, [getValue] of [confirm-environment] leaves
    every variable of the table as it was, except the one it resolves
    (the uppercased name) and the one with the suffix of the current
    [NODE_ENV]. *)
Theorem getValue_touches_two_variables
  (N k : string) (d : option string) (p : process) :
  k <> toUpperCase N ->
  (forall mode, env p !! "NODE_ENV" = Some mode ->
                k <> suffixed (toUpperCase N) mode) ->
  env (snd (ConfirmEnvironment.getValue N d p)) !! k = env p !! k.
Proof.
  intros HU Hs.
  destruct (String.eqb_spec N EmptyString) as [->|HN].
  { now rewrite getValue_no_name. }
  rewrite getValue_unfold by exact HN. cbv zeta.
  pose proof (after_suffix_fallback_frame (toUpperCase N) k (env p) HU Hs)
    as Hframe.
  destruct (after_suffix_fallback (toUpperCase N) (env p)) as [value e].
  cbn [fst snd] in Hframe.
  destruct (truthy value); [exact Hframe|].
  destruct (truthy d); cbn [snd with_env printed env]; [|exact Hframe].
  now rewrite lookup_insert_ne by (apply not_eq_sym, HU).
Qed.

Lemma getValue_touches_two_variables_witness :
  env (snd (ConfirmEnvironment.getValue "name" None test_mode)) !! "NODE_ENV" =
    Some "test".
Proof.
  apply (getValue_touches_two_variables "name" "NODE_ENV" None test_mode).
  - discriminate.
  - intros mode H. injection H as <-. discriminate.
Defined.

(** X12: resolving a name a second time gives the same value and changes
    nothing any more, whatever default is passed the second time: the
    renaming of the suffixed variable and the writing of the default happen
    once. *)
Theorem getValue_twice
  (N : string) (d d' : option string) (p q : process) (v : string) :
  ConfirmEnvironment.getValue N d p = (Returned v, q) ->
  ConfirmEnvironment.getValue N d' q = (Returned v, q).
Proof.
  intros H.
  destruct (getValue_returns_what_the_table_holds_aux N d p q v H)
    as (Hne & Hq & HN).
  rewrite getValue_unfold by exact HN. cbv zeta.
  unfold after_suffix_fallback. rewrite Hq.
  apply truthy_Some in Hne. rewrite Hne. cbv beta iota. rewrite Hne.
  now rewrite with_env_same.
Qed.

Lemma getValue_twice_witness :
  ConfirmEnvironment.getValue "name" (Some "other")
    (snd (ConfirmEnvironment.getValue "name" None test_mode)) =
    (Returned "from-test",
     snd (ConfirmEnvironment.getValue "name" None test_mode)).
Proof.
  exact (getValue_twice "name" None (Some "other") test_mode _ "from-test"
           eq_refl).
Defined.

(** X13: with a name and a default that are not empty, [getValue] of
    [confirm-environment] always returns; and when [getValue] fails it has
    printed its message and left with status one without changing the
    table or the file system. *)
Theorem getValue_fails_only_without_default
  (N : string) (d : option string) (p : process) :
  (forall dv : string,
     N <> EmptyString -> d = Some dv -> dv <> EmptyString ->
     exists v q, ConfirmEnvironment.getValue N d p = (Returned v, q)) /\
  ((forall v q,
      ConfirmEnvironment.getValue N d p <> (Returned v, q)) ->
   exists message : string,
     ConfirmEnvironment.getValue N d p =
       (Exited 1, printed (fatal_lines message) p) /\
     env (printed (fatal_lines message) p) = env p /\
     files (printed (fatal_lines message) p) = files p).
Proof.
  split.
  - intros dv HN -> Hdv.
    destruct (getValue_exits N (Some dv) p) as [(v & e & H)|(msg & H)];
      [eauto|].
    rewrite getValue_unfold in H by exact HN. cbv zeta in H.
    destruct (after_suffix_fallback (toUpperCase N) (env p)) as [value e].
    apply truthy_Some in Hdv.
    destruct (truthy value); [discriminate H|]. rewrite Hdv in H.
    discriminate H.
  - intros Hnone.
    destruct (getValue_exits N d p) as [(v & e & H)|(msg & H)].
    + now destruct (Hnone v (with_env e p)).
    + exists msg. repeat split. exact H.
Qed.

Lemma getValue_fails_only_without_default_witness :
  exists v q,
    ConfirmEnvironment.getValue "NAME" (Some "fallback") nothing_set =
      (Returned v, q).
Proof.
  exact (proj1 (getValue_fails_only_without_default "NAME" (Some "fallback")
                  nothing_set) "fallback" ltac:(discriminate) eq_refl
           ltac:(discriminate)).
Defined.

(** X14: the two files resolve alike.  Without a default, [getValue] of
    [confirm-environment] returns exactly when [getValue] of [index.js]
    does, with the same value and the same table; when they fail, the first
    prints and exits where the second throws, and in both the table is as
    it was.  For the empty name the two messages are the same; for a
    variable without a value the message of [index.js] closes the quote
    after the name and the other does not. *)
Theorem getValue_of_both_files (N : string) (p : process) :
  (forall v q,
     ConfirmEnvironment.getValue N None p = (Returned v, q) <->
     IndexJs.getValue N p = (Returned v, q)) /\
  (N = EmptyString ->
   ConfirmEnvironment.getValue N None p =
     (Exited 1,
      printed (fatal_lines ("The " +:+ dquote +:+ "name" +:+ dquote +:+
                            " parameter is required!")) p) /\
   IndexJs.getValue N p =
     (Thrown (Error ("The " +:+ dquote +:+ "name" +:+ dquote +:+
                     " parameter is required!")), p)) /\
  (N <> EmptyString ->
   (forall v q, IndexJs.getValue N p <> (Returned v, q)) ->
   ConfirmEnvironment.getValue N None p =
     (Exited 1,
      printed (fatal_lines ("The " +:+ dquote +:+ toUpperCase N +:+
                            " environment variable is undefined!")) p) /\
   IndexJs.getValue N p =
     (Thrown (Error ("The " +:+ dquote +:+ toUpperCase N +:+ dquote +:+
                     " environment variable is undefined!")), p)).
Proof.
  destruct (String.eqb_spec N EmptyString) as [->|HN].
  { split; [|split].
    - intros v q. rewrite getValue_no_name. split; discriminate.
    - intros _. split; [apply getValue_no_name | reflexivity].
    - intros H. now destruct H. }
  pose proof (after_suffix_fallback_falsy (toUpperCase N) (env p)) as Hsame.
  rewrite getValue_unfold, index_getValue_unfold by exact HN. cbv zeta.
  destruct (after_suffix_fallback (toUpperCase N) (env p)) as [value e].
  cbn [fst snd] in *.
  destruct (truthy value).
  - split; [tauto|]. split; [intros H; now destruct (HN H)|].
    intros _ Hnone. now destruct (Hnone _ _ eq_refl).
  - cbn [truthy]. rewrite (Hsame eq_refl), with_env_same.
    split; [|split].
    + intros v q. split; discriminate.
    + intros H. now destruct (HN H).
    + intros _ _. split; reflexivity.
Qed.

Lemma getValue_of_both_files_witness :
  IndexJs.getValue "name" nothing_set =
    (Thrown (Error ("The " +:+ dquote +:+ "NAME" +:+ dquote +:+
                    " environment variable is undefined!")), nothing_set).
Proof.
  refine (proj2 (proj2 (proj2 (getValue_of_both_files "name" nothing_set))
                   _ _)).
  - discriminate.
  - intros v q. discriminate.
Defined.

(** ** The methods of both files *)

Lemma index_settle_eq (positive negative : string) (c : methods)
  (p : process) :
  Chain.settle IndexJs.fatal positive negative c p =
    if xorb (valid c) (_NOT_ c)
    then (Returned (settled (xorb (valid c) (_NOT_ c)) c), p)
    else (Thrown (Error (if _NOT_ c then negative else positive)), p).
Proof.
  unfold Chain.settle, settled.
  destruct c as [n v [] []]; cbn [_NOT_ valid set_valid set_NOT negb andb
    orb xorb name value]; js_run; rewrite ?fatal_throws; reflexivity.
Qed.

Section BothFiles.
Variable RegExp_test : string -> string -> option bool.

(** X15: the methods from [is] to [isIn], and [not], behave alike in the
    two files.  A call returns in one exactly when it returns in the other,
    with the same chain; where [confirm-environment] prints a message and
    exits, [index.js] throws an [Error] with that very message and prints
    nothing; the [SyntaxError] of a pattern is the same in both. *)
Theorem methods_of_both_files (m : call) (c : methods) (p : process) :
  (forall force, m <> IsPath force) ->
  match ConfirmEnvironment.invoke RegExp_test m c p with
  | (Returned c', q) =>
      q = p /\ IndexJs.invoke RegExp_test m c p = (Returned c', p)
  | (Exited code, q) =>
      code = 1%Z /\
      exists message : string,
        q = printed (fatal_lines message) p /\
        IndexJs.invoke RegExp_test m c p = (Thrown (Error message), p)
  | (Thrown e, q) =>
      q = p /\ IndexJs.invoke RegExp_test m c p = (Thrown e, p)
  end.
Proof.
  intros Hm. unfold ConfirmEnvironment.invoke.
  destruct m; try (now destruct (Hm force));
    cbn [Chain.invoke IndexJs.invoke];
    unfold Chain.not, Chain.is_, Chain.isDefined, Chain.isEQ, Chain.isGT,
      Chain.isGE, Chain.isLT, Chain.isLE, Chain.hasLength, Chain.contains,
      Chain.matches, Chain.isIn;
    try (destruct (RegExp_test pattern (value c)); [|split; reflexivity]);
    rewrite ?settle_eq, ?index_settle_eq;
    try (split; reflexivity);
    match goal with
    | |- context [if ?b then _ else _] => destruct b
    end;
    try (split; reflexivity);
    (split; [reflexivity | eexists; split; reflexivity]).
Qed.

End BothFiles.

Lemma methods_of_both_files_witness :
  IndexJs.invoke literal_RegExp_test (IsLT (JNumber (JsNumber.of_Z 5000)))
    (new_chain "SERVER_PORT" "4000") port_4000 =
    (Returned {| name := "SERVER_PORT"; value := "4000"; _NOT_ := false;
                 valid := true |}, port_4000).
Proof.
  exact (proj2 (methods_of_both_files literal_RegExp_test
                  (IsLT (JNumber (JsNumber.of_Z 5000)))
                  (new_chain "SERVER_PORT" "4000") port_4000
                  ltac:(discriminate))).
Defined.

(** ** Resolved paths *)

Lemma string_app_cons (x : ascii) (a b : string) :
  String x a +:+ b = String x (a +:+ b).
Proof. reflexivity. Qed.

Lemma string_app_nil (b : string) : EmptyString +:+ b = b.
Proof. reflexivity. Qed.

Lemma no_slash_tail (x : ascii) (s : string) :
  no_slash (String x s) -> x <> "/"%char /\ no_slash s.
Proof.
  intros H. split.
  - intros ->. exact (H EmptyString s eq_refl).
  - intros a b ->. exact (H (String x a) b eq_refl).
Qed.

Lemma split_on_not_nil (c : ascii) (s : string) : split_on c s <> [].
Proof.
  induction s as [|d s IH]; cbn; [discriminate|].
  destruct (Ascii.eqb d c); [discriminate|].
  destruct (split_on c s); [now destruct IH | discriminate].
Qed.

Lemma split_on_no_slash (s : string) : Forall no_slash (split_on "/" s).
Proof.
  induction s as [|d s IH]; cbn.
  - constructor; [|constructor]. intros [|x a] b H; discriminate H.
  - destruct (Ascii.eqb_spec d "/") as [->|Hd].
    + constructor; [|exact IH]. intros [|x a] b H; discriminate H.
    + destruct (split_on "/" s) as [|w ws] eqn:E;
        [now destruct (split_on_not_nil "/" s)|].
      inversion IH as [|? ? Hw Hws]; subst.
      constructor; [|exact Hws].
      intros [|x a] b H; rewrite ?string_app_nil, ?string_app_cons in H;
        injection H as Hx Hrest; [congruence|].
      exact (Hw a b Hrest).
Qed.

Lemma split_on_app (x s : string) :
  no_slash x -> split_on "/" (x +:+ "/" +:+ s) = x :: split_on "/" s.
Proof.
  induction x as [|d x IH]; intros Hx.
  - reflexivity.
  - destruct (no_slash_tail _ _ Hx) as [Hd Hx'].
    rewrite string_app_cons. cbn [split_on].
    destruct (Ascii.eqb_spec d "/") as [->|_]; [now destruct Hd|].
    now rewrite (IH Hx').
Qed.

Lemma split_on_single (x : string) :
  no_slash x -> split_on "/" x = [x].
Proof.
  induction x as [|d x IH]; intros Hx; [reflexivity|].
  destruct (no_slash_tail _ _ Hx) as [Hd Hx'].
  cbn [split_on]. destruct (Ascii.eqb_spec d "/") as [->|_];
    [now destruct Hd|].
  now rewrite (IH Hx').
Qed.

Lemma split_on_join (l : list string) :
  l <> [] -> Forall no_slash l -> split_on "/" (join "/" l) = l.
Proof.
  induction l as [|x l IH]; intros Hl Hall; [now destruct Hl|].
  inversion Hall as [|? ? Hx Hrest]; subst.
  destruct l as [|y l]; [now apply split_on_single|].
  change (join "/" (x :: y :: l)) with (x +:+ "/" +:+ join "/" (y :: l)).
  rewrite split_on_app by exact Hx. f_equal. apply IH; [discriminate|exact Hrest].
Qed.

Lemma path_segment_no_slash (s : string) : path_segment s -> no_slash s.
Proof. intros (_ & _ & _ & H). exact H. Qed.

Lemma push_segment_keeps (stack : list string) (seg : string) :
  Forall path_segment stack -> no_slash seg ->
  Forall path_segment (JsPath.push_segment stack seg).
Proof.
  intros Hs Hseg. unfold JsPath.push_segment.
  destruct (String.eqb_spec seg EmptyString) as [->|H1]; [exact Hs|].
  destruct (String.eqb_spec seg ".") as [->|H2]; [exact Hs|]. cbn [orb].
  destruct (String.eqb_spec seg "..") as [->|H3].
  - induction Hs as [|x l Hx Hl IHl]; [constructor|].
    destruct l as [|y l]; [constructor|].
    change (removelast (x :: y :: l)) with (x :: removelast (y :: l)).
    constructor; [exact Hx | exact IHl].
  - apply Forall_app. split; [exact Hs|]. constructor; [|constructor].
    repeat split; assumption.
Qed.

Lemma fold_push_keeps (l stack : list string) :
  Forall no_slash l -> Forall path_segment stack ->
  Forall path_segment (fold_left JsPath.push_segment l stack).
Proof.
  revert stack. induction l as [|x l IH]; intros stack Hl Hs; [exact Hs|].
  inversion Hl; subst. cbn [fold_left]. apply IH; [assumption|].
  now apply push_segment_keeps.
Qed.

Lemma segments_normal (p : string) : Forall path_segment (JsPath.segments p).
Proof.
  unfold JsPath.segments.
  apply fold_push_keeps; [apply split_on_no_slash | constructor].
Qed.

Lemma fold_push_normal (l stack : list string) :
  Forall path_segment l ->
  fold_left JsPath.push_segment l stack = (stack ++ l)%list.
Proof.
  revert stack. induction l as [|x l IH]; intros stack Hl.
  - now rewrite app_nil_r.
  - inversion Hl as [|? ? (H1 & H2 & H3 & _) Hrest]; subst.
    cbn [fold_left]. rewrite IH by exact Hrest.
    unfold JsPath.push_segment.
    apply String.eqb_neq in H1, H2, H3. rewrite H1, H2, H3. cbn [orb].
    now rewrite <- app_assoc.
Qed.

Lemma segments_of_segments (l : list string) :
  Forall path_segment l -> JsPath.segments (JsPath.of_segments l) = l.
Proof.
  intros Hl. unfold JsPath.segments, JsPath.of_segments.
  change ("/" +:+ join "/" l) with (String "/" (join "/" l)).
  cbn [split_on Ascii.eqb Bool.eqb]. 
  destruct l as [|x l]; [reflexivity|].
  rewrite split_on_join;
    [|discriminate|eapply Forall_impl; [exact Hl|apply path_segment_no_slash]].
  change (fold_left JsPath.push_segment (EmptyString :: x :: l) [])
    with (fold_left JsPath.push_segment (x :: l) []).
  now rewrite fold_push_normal.
Qed.

(** A resolved path resolves to itself, in every working directory. *)
Lemma resolve_resolved (cwd cwd' path : string) :
  JsPath.resolve cwd' (JsPath.resolve cwd path) = JsPath.resolve cwd path.
Proof.
  unfold JsPath.resolve at 1.
  change (JsPath.is_absolute (JsPath.resolve cwd path)) with true.
  cbv iota. unfold JsPath.resolve.
  now rewrite segments_of_segments by apply segments_normal.
Qed.

(** X16: a second [isPath] changes nothing.  When [isPath] has returned,
    the value of the chain is a path that resolves to itself and exists,
    and the table holds it: [isPath] on the chain that came back returns
    that same chain and leaves the process as it is, whatever [force] is
    passed. *)
Theorem isPath_twice
  (force force' : option bool) (c c' : methods) (p q : process) :
  ConfirmEnvironment.isPath force c p = (Returned c', q) ->
  ConfirmEnvironment.isPath force' c' q = (Returned c', q) /\
  JsFs.exists_in (files q) (value c') = true /\
  env q !! name c' = Some (value c') /\
  JsPath.resolve (cwd q) (value c') = value c'.
Proof.
  intros H. rewrite isPath_unfold in H. cbv zeta in H.
  assert (Hgoal : forall fs' : gmap string JsFs.node,
    JsFs.exists_in fs' (JsPath.resolve (cwd p) (value c)) = true ->
    let c1 := resolved (JsPath.resolve (cwd p) (value c)) c in
    let q1 := with_files fs'
                (with_env (<[name c := JsPath.resolve (cwd p) (value c)]>
                             (env p)) p) in
    ConfirmEnvironment.isPath force' c1 q1 = (Returned c1, q1) /\
    JsFs.exists_in (files q1) (value c1) = true /\
    env q1 !! name c1 = Some (value c1) /\
    JsPath.resolve (cwd q1) (value c1) = value c1).
  { intros fs' Hex c1 q1. subst c1 q1.
    cbn [resolved with_files with_env name value files env cwd].
    split; [|split; [exact Hex|split;
      [apply lookup_insert_eq | apply resolve_resolved]]].
    rewrite isPath_unfold. cbv zeta.
    cbn [resolved with_files with_env name value files env cwd console].
    rewrite resolve_resolved, Hex, insert_insert_eq. reflexivity. }
  destruct (JsFs.exists_in (files p) (JsPath.resolve (cwd p) (value c)))
    eqn:Hex.
  - injection H as <- <-.
    replace (with_env (<[name c := JsPath.resolve (cwd p) (value c)]> (env p)) p)
      with (with_files (files p)
              (with_env (<[name c := JsPath.resolve (cwd p) (value c)]>
                           (env p)) p)) by reflexivity.
    apply Hgoal. exact Hex.
  - destruct (forced force); [|discriminate H].
    destruct (JsFs.mkdir_error (files p) (JsPath.resolve (cwd p) (value c)));
      [discriminate H|].
    injection H as <- <-. apply Hgoal.
    unfold JsFs.exists_in. apply bool_decide_eq_true.
    rewrite lookup_insert_eq. eauto.
Qed.

Lemma isPath_twice_witness :
  ConfirmEnvironment.isPath (Some false)
    (resolved "/srv/app/logs" log_path_chain)
    (snd (ConfirmEnvironment.isPath None log_path_chain app_without_logs)) =
    (Returned (resolved "/srv/app/logs" log_path_chain),
     snd (ConfirmEnvironment.isPath None log_path_chain app_without_logs)).
Proof.
  refine (proj1 (isPath_twice None (Some false) log_path_chain _
                   app_without_logs _ _)).
  rewrite isPath_unfold. reflexivity.
Defined.

(** ** The helper functions *)

Lemma join_cons (sep x y : string) (l : list string) :
  join sep (x :: y :: l) = x +:+ sep +:+ join sep (y :: l).
Proof. reflexivity. Qed.

Lemma join_prefixed (sep u x : string) (l : list string) :
  join sep ((u +:+ x) :: l) = u +:+ join sep (x :: l).
Proof.
  destruct l as [|y l]; [reflexivity|].
  rewrite !join_cons. apply string_app_assoc.
Qed.

Lemma join_comma_space (a : string) (l : list string) :
  join "," (a :: map (fun s => " " +:+ s) l) = join ", " (a :: l).
Proof.
  revert a. induction l as [|x l IH]; intros a; [reflexivity|].
  cbn [map]. rewrite !join_cons, join_prefixed, IH. reflexivity.
Qed.

(** X17: [arrayToText] writes the elements as JSON texts, separated by a
    comma and a space, between brackets; the empty array gives [[]].  An
    [undefined] element is written [undefined], except in the first place,
    where nothing is written. *)
Theorem arrayToText_format :
  Chain.arrayToText [] = "[]" /\
  (forall (v : jsval) (vs : list jsval),
     v <> JUndefined ->
     Chain.arrayToText (v :: vs) =
       "[" +:+ join ", " (map item_text (v :: vs)) +:+ "]") /\
  (forall vs : list jsval,
     Chain.arrayToText (JUndefined :: vs) =
       "[" +:+ join ", " (EmptyString :: map item_text vs) +:+ "]").
Proof.
  assert (H : forall v vs,
    Chain.arrayToText (v :: vs) =
      "[" +:+ join ", " (match JSON_stringify v with
                         | Some s => s
                         | None => EmptyString
                         end :: map item_text vs) +:+ "]").
  { intros v vs. unfold Chain.arrayToText. cbn [map].
    rewrite <- join_comma_space. do 2 f_equal. f_equal.
    rewrite !map_map. reflexivity. }
  split; [reflexivity|]. split.
  - intros v vs Hv. rewrite H. cbn [map].
    destruct (JSON_stringify v) eqn:E;
      [unfold item_text; rewrite E; reflexivity|].
    destruct v as [| |b|[| | |m e]|s]; try discriminate E. now destruct Hv.
  - intros vs. now rewrite H.
Qed.

Lemma arrayToText_format_witness :
  Chain.arrayToText [JString "DEV"; JNumber (JsNumber.of_Z 4); JNull] =
    "[" +:+ JsString.dquote +:+ "DEV" +:+ JsString.dquote +:+ ", 4, null]".
Proof.
  rewrite (proj1 (proj2 arrayToText_format)) by discriminate. reflexivity.
Defined.

Lemma join_split_on (c : ascii) (s : string) :
  join (String c EmptyString) (split_on c s) = s.
Proof.
  induction s as [|d s IH]; [reflexivity|]. cbn [split_on].
  pose proof (split_on_not_nil c s) as Hne.
  destruct (Ascii.eqb_spec d c) as [->|Hd].
  - destruct (split_on c s) as [|w ws]; [now destruct Hne|].
    rewrite join_cons, IH. reflexivity.
  - destruct (split_on c s) as [|w ws]; [now destruct Hne|].
    rewrite <- IH. destruct ws as [|w' ws]; reflexivity.
Qed.

Lemma split_on_pieces (c : ascii) (s : string) :
  Forall (fun w => forall a b, w <> a +:+ String c b) (split_on c s).
Proof.
  induction s as [|d s IH]; cbn [split_on].
  - constructor; [|constructor]. intros [|x a] b H; discriminate H.
  - pose proof (split_on_not_nil c s) as Hne.
    destruct (Ascii.eqb_spec d c) as [->|Hd].
    + constructor; [|exact IH]. intros [|x a] b H; discriminate H.
    + destruct (split_on c s) as [|w ws]; [now destruct Hne|].
      inversion IH as [|? ? Hw Hws]; subst.
      constructor; [|exact Hws].
      intros [|x a] b H; rewrite ?string_app_nil, ?string_app_cons in H;
        injection H as Hx Hrest; [congruence|].
      exact (Hw a b Hrest).
Qed.

(** X18: [textToArray] cuts the trimmed text at its commas.  Joining the
    items with commas gives the trimmed text back; there is always at least
    one item (the empty text gives one empty item); and no item contains a
    comma.  The items themselves are not trimmed. *)
Theorem textToArray_round_trip (text : string) :
  join "," (Utilities.textToArray text) = Utilities.trim text /\
  Utilities.textToArray text <> [] /\
  Forall (fun item => forall a b, item <> a +:+ "," +:+ b)
    (Utilities.textToArray text) /\
  Utilities.textToArray EmptyString = [EmptyString].
Proof.
  unfold Utilities.textToArray. repeat split.
  - apply join_split_on.
  - apply split_on_not_nil.
  - apply split_on_pieces.
Qed.

Lemma equal_integer (m e z : Z) :
  JsNumber.equal (JsNumber.Dec m e) (JsNumber.of_Z z) = true <->
  (m * 10 ^ (e - Z.min e 0) = z * 10 ^ (0 - Z.min e 0))%Z.
Proof.
  unfold JsNumber.equal, JsNumber.of_Z, JsNumber.align. apply Z.eqb_eq.
Qed.

(** X19: the checks on numbers.  [validInteger] implies [validNumber]; on
    a number, [validFloat] is the opposite of [validInteger], so it accepts
    [NaN] and the infinities, which [validNumber] (for [NaN]) and
    [validInteger] reject; a value that is not of type number, such as the
    string of an environment variable, passes none of the three, since
    nothing is converted.  [validInteger] accepts exactly the finite
    numbers that equal a whole number.  [validDefined] is the opposite of
    [validUndefined]. *)
Theorem number_checks :
  (forall v, Utilities.validInteger v = true ->
             Utilities.validNumber v = true) /\
  (forall n, Utilities.validFloat (JNumber n) =
             negb (Utilities.validInteger (JNumber n))) /\
  (Utilities.validFloat (JNumber JsNumber.NaN) = true /\
   Utilities.validFloat (JNumber JsNumber.PosInf) = true /\
   Utilities.validFloat (JNumber JsNumber.NegInf) = true /\
   Utilities.validNumber (JNumber JsNumber.NaN) = false) /\
  (forall v, Utilities.typeof_number v = false ->
             Utilities.validNumber v = false /\
             Utilities.validInteger v = false /\
             Utilities.validFloat v = false) /\
  (forall m e : Z,
     Utilities.validInteger (JNumber (JsNumber.Dec m e)) = true <->
     exists z : Z,
       JsNumber.equal (JsNumber.Dec m e) (JsNumber.of_Z z) = true) /\
  (forall v, Utilities.validDefined v = negb (Utilities.validUndefined v)).
Proof.
  split; [|split; [|split; [|split; [|split]]]].
  - intros [| | |[| | |m e]|] H; try discriminate H; reflexivity.
  - intros n. reflexivity.
  - repeat split.
  - intros v H. unfold Utilities.validNumber, Utilities.validInteger,
      Utilities.validFloat. rewrite H. repeat split.
  - intros m e. unfold Utilities.validInteger, Utilities.typeof_number,
      Utilities.Number_isInteger. cbn [andb].
    rewrite orb_true_iff, Z.leb_le, Z.eqb_eq.
    setoid_rewrite equal_integer. split.
    + intros [He|Hmod].
      * exists (m * 10 ^ e)%Z. replace (Z.min e 0) with 0%Z by lia.
        rewrite Z.sub_0_r. change (10 ^ (0 - 0))%Z with 1%Z. lia.
      * destruct (Z.le_gt_cases 0 e) as [He|He].
        -- exists (m * 10 ^ e)%Z. replace (Z.min e 0) with 0%Z by lia.
           rewrite Z.sub_0_r. change (10 ^ (0 - 0))%Z with 1%Z. lia.
        -- exists (m / 10 ^ (- e))%Z. replace (Z.min e 0) with e by lia.
           replace (e - e)%Z with 0%Z by lia.
           replace (0 - e)%Z with (- e)%Z by lia.
           change (10 ^ 0)%Z with 1%Z. rewrite Z.mul_1_r.
           assert (Hpos : (10 ^ (- e) <> 0)%Z)
             by (apply Z.pow_nonzero; lia).
           rewrite (Z.div_mod m (10 ^ (- e)) Hpos) at 1. lia.
    + intros [z Hz].
      destruct (Z.le_gt_cases 0 e) as [He|He]; [left; exact He|right].
      replace (Z.min e 0) with e in Hz by lia.
      replace (e - e)%Z with 0%Z in Hz by lia.
      replace (0 - e)%Z with (- e)%Z in Hz by lia.
      change (10 ^ 0)%Z with 1%Z in Hz. rewrite Z.mul_1_r in Hz. subst m. apply Z.mod_mul.
      apply Z.pow_nonzero; lia.
  - intros []; reflexivity.
Qed.

Lemma number_checks_witness :
  Utilities.validNumber (JNumber (JsNumber.of_Z 4000)) = true.
Proof.
  exact (proj1 number_checks (JNumber (JsNumber.of_Z 4000)) eq_refl).
Defined.

(** ** [confirm] *)

(** X20: the chain that [confirm] returns, in either file, carries the
    name as it was passed and a value that is not empty and that the table
    binds to the uppercased name; its flag is down. *)
Theorem confirm_returns_a_fresh_chain
  (N : string) (d : option string) (p q : process) (c : methods) :
  ConfirmEnvironment.confirm N d p = (Returned c, q) \/
    IndexJs.confirm N p = (Returned c, q) ->
  name c = N /\ _NOT_ c = false /\ valid c = false /\
  value c <> EmptyString /\
  env q !! toUpperCase N = Some (value c).
Proof.
  intros [H|H].
  - unfold ConfirmEnvironment.confirm in H.
    cbv beta delta [bind ret] iota in H.
    destruct (ConfirmEnvironment.getValue N d p) as [[v| |] q'] eqn:Hg;
      try discriminate H.
    injection H as <- <-.
    destruct (getValue_returns_what_the_table_holds_aux N d p q' v Hg)
      as (Hne & Hq & _).
    repeat split; assumption.
  - unfold IndexJs.confirm in H. cbv beta delta [bind ret] iota in H.
    destruct (IndexJs.getValue N p) as [[v| |] q'] eqn:Hg;
      try discriminate H.
    injection H as <- <-.
    destruct (String.eqb_spec N EmptyString) as [->|HN];
      [discriminate Hg|].
    rewrite index_getValue_unfold in Hg by exact HN.
    pose proof (after_suffix_fallback_bound (toUpperCase N) (env p)) as Hb.
    destruct (after_suffix_fallback (toUpperCase N) (env p)) as [value e].
    cbn [fst snd] in *.
    destruct (truthy value) eqn:Hv; [|discriminate Hg].
    injection Hg as <- <-. destruct (truthy_default _ Hv) as [Hs Hne].
    repeat split; try assumption. cbn [with_env env]. rewrite Hb; auto.
Qed.

Lemma confirm_returns_a_fresh_chain_witness :
  env (snd (IndexJs.confirm "name" test_mode)) !! "NAME" = Some "from-test".
Proof.
  exact (proj2 (proj2 (proj2 (proj2
           (confirm_returns_a_fresh_chain "name" None test_mode _
              (new_chain "name" "from-test") (or_intror eq_refl)))))).
Defined.

End MoreProperties.
